(** * A shallow embedding of the HARK solver core (HARK/HARKcore.py) and of
    the bounds check of the SMM objective (SolvingMicroDSOPs.py).

    An agent is a Python object: its attributes (instance and class level
    alike, one agent at a time) are a [gmap string pyval].  The methods are
    state-and-error computations over a [world] that holds the attributes and
    a log of the observable events: each invocation of a per-period solver
    with its keyword arguments, and each completed cycle with its solutions. *)

From Stdlib Require Import ZArith QArith String Ascii Bool.
From stdpp Require Import base gmap strings list fin_maps.

Local Open Scope Z_scope.
Set Warnings "-register-all,-abstract-large-number".


(** ** Python values *)

Section Values.
Context (Obj Fn : Type).

(** [Obj] are opaque Python objects (the model's solution objects),
    [Fn] are Python functions (the per-period solvers). *)
Inductive pyval :=
| PNone
| PBool (b : bool)
| PInt (z : Z)
| PNum (q : Q)
| PStr (s : string)
| PList (l : list pyval)
| PFun (f : Fn)
| PObj (o : Obj).

End Values.

Arguments PNone {Obj Fn}.
Arguments PBool {Obj Fn} b.
Arguments PInt {Obj Fn} z.
Arguments PNum {Obj Fn} q.
Arguments PStr {Obj Fn} s.
Arguments PList {Obj Fn} l.
Arguments PFun {Obj Fn} f.
Arguments PObj {Obj Fn} o.

(** Python exceptions raised by the embedded code.  [ExecTarget] stands for
    an [exec]/[eval] of ['self.' + name + ...] where [name] is not a plain
    attribute name, and the model follows the statement no further: a
    reserved word gives a SyntaxError; a dotted, subscripted or padded name
    addresses another object or another (stripped) name; a special
    [__name__] goes through Python's object machinery. *)
Inductive exc :=
| AttributeError
| KeyError
| IndexError
| TypeError
| ExecTarget
| SolverRaised
| OutOfFuel.

Inductive result (A : Type) :=
| Ok (x : A)
| Err (e : exc).
Arguments Ok {A} x.
Arguments Err {A} e.

Definition rbind {A B} (r : result A) (k : A -> result B) : result B :=
  match r with Ok x => k x | Err e => Err e end.

(** The runtime interface of the collaborators: [getArgNames] (HARKutilities,
    not among the sources) and a call of a function with keyword arguments, and the
    model-supplied [Solution.distance] method. *)
Class Runtime (Obj Fn : Type) := {
  getArgNames : Fn -> list string;
  fn_call : Fn -> list (string * pyval Obj Fn) -> result (pyval Obj Fn);
  distance : pyval Obj Fn -> pyval Obj Fn -> result Q
}.

(** ** Identifiers: what [exec('self.' + name + ...)] can address *)

Definition is_alpha_ (c : ascii) : bool :=
  let n := nat_of_ascii c in
  ((65 <=? n) && (n <=? 90))%nat || ((97 <=? n) && (n <=? 122))%nat || (n =? 95)%nat.

Definition is_alnum_ (c : ascii) : bool :=
  let n := nat_of_ascii c in is_alpha_ c || ((48 <=? n) && (n <=? 57))%nat.

Fixpoint all_alnum_ (s : string) : bool :=
  match s with EmptyString => true | String c s' => is_alnum_ c && all_alnum_ s' end.

(** Reserved words of Python 2 and of Python 3 (the sources run under both:
    they call [print(...)] as a function).  A name reserved in either
    version, such as [None], [True], [nonlocal], [await] or [print], is not
    an attribute name the [exec]ed code can address in that version. *)
Definition py_keywords : list string :=
  ["and"; "as"; "assert"; "break"; "class"; "continue"; "def"; "del"; "elif";
   "else"; "except"; "finally"; "for"; "from"; "global"; "if"; "import"; "in";
   "is"; "lambda"; "not"; "or"; "pass"; "raise"; "return"; "try"; "while";
   "with"; "yield"; "None"; "True"; "False"; "nonlocal"; "async"; "await";
   "print"; "exec"]%string.

Definition is_identifier (s : string) : bool :=
  match s with
  | EmptyString => false
  | String c s' => is_alpha_ c && all_alnum_ s' &&
                   negb (existsb (String.eqb s) py_keywords)
  end.

(** Special names [__name__]: [self.__dict__], [self.__class__] and the like
    are handled by Python's object machinery, not stored as plain attributes. *)
Definition is_special_name (s : string) : bool :=
  String.prefix "__" s && String.prefix "__" (string_of_list_ascii (rev (list_ascii_of_string s))).

(** A name that [exec('self.' + name + ' = temp')] binds as a plain
    attribute of the agent. *)
Definition is_plain_attr (s : string) : bool :=
  is_identifier s && negb (is_special_name s).

(** ** The world and the state-and-error monad *)

Section Machine.
Context {Obj Fn : Type}.

Inductive event :=
| ECall (f : Fn) (kwargs : list (string * pyval Obj Fn))
| ECycle (sols : list (pyval Obj Fn)).

Record world := mkWorld { attrs : gmap string (pyval Obj Fn); log : list event }.

Definition M (A : Type) := world -> result (A * world).

Definition ret {A} (x : A) : M A := fun w => Ok (x, w).
Definition bind {A B} (m : M A) (k : A -> M B) : M B :=
  fun w => match m w with Ok (x, w') => k x w' | Err e => Err e end.
Definition raise {A} (e : exc) : M A := fun _ => Err e.
Definition lift {A} (r : result A) : M A :=
  fun w => match r with Ok x => Ok (x, w) | Err e => Err e end.

Definition get_attr (n : string) : M (pyval Obj Fn) :=
  fun w => match attrs w !! n with Some v => Ok (v, w) | None => Err AttributeError end.
Definition set_attr (n : string) (v : pyval Obj Fn) : M unit :=
  fun w => Ok (tt, mkWorld (<[n:=v]> (attrs w)) (log w)).
Definition emit (e : event) : M unit :=
  fun w => Ok (tt, mkWorld (attrs w) (log w ++ [e])).

End Machine.

Arguments event : clear implicits.
Arguments world : clear implicits.
Arguments M Obj Fn A : clear implicits.

Notation "'let*' x ':=' m 'in' k" := (bind m (fun x => k))
  (at level 200, x name, m at level 100, k at level 200).
Notation "m ;;; k" := (bind m (fun _ => k)) (at level 100, right associativity).

(** ** Python helpers *)

Section Helpers.
Context {Obj Fn : Type}.

(** Truth value of [if v:]; objects of the model count as true. *)
Definition truthy (v : pyval Obj Fn) : bool :=
  match v with
  | PNone => false
  | PBool b => b
  | PInt z => negb (Z.eqb z 0)
  | PNum q => negb (Qeq_bool q 0)
  | PStr s => negb (String.eqb s "")
  | PList l => negb (Nat.eqb (length l) 0)
  | PFun _ | PObj _ => true
  end.

Fixpoint as_names (l : list (pyval Obj Fn)) : result (list string) :=
  match l with
  | [] => Ok []
  | PStr s :: l' => rbind (as_names l') (fun r => Ok (s :: r))
  | _ :: _ => Err TypeError
  end.

Definition as_int (v : pyval Obj Fn) : result Z :=
  match v with PInt z => Ok z | _ => Err TypeError end.

Definition as_fun (v : pyval Obj Fn) : result Fn :=
  match v with PFun f => Ok f | _ => Err TypeError end.

(** [v[t]] for a list [v] and [0 <= t]. *)
Definition py_index (v : pyval Obj Fn) (t : nat) : result (pyval Obj Fn) :=
  match v with
  | PList l => match nth_error l t with Some x => Ok x | None => Err IndexError end
  | _ => Err TypeError
  end.

(** [l[-1]] *)
Definition py_last (l : list (pyval Obj Fn)) : result (pyval Obj Fn) :=
  match rev l with x :: _ => Ok x | [] => Err IndexError end.

(** [deepcopy]: values of the model are immutable, a copy is the value. *)
Definition deepcopy (v : pyval Obj Fn) : pyval Obj Fn := v.

Definition is_solution_str (v : pyval Obj Fn) : bool :=
  match v with PStr s => String.eqb s "solution" | _ => false end.

Definition qlt (a b : Q) : bool := negb (Qle_bool b a).

End Helpers.

(** ** AgentType and the solver driver (HARK/HARKcore.py) *)

Section Agent.
Context {Obj Fn : Type} {RT : Runtime Obj Fn}.

(** [eval('agent.' + name)] *)
Definition attr_expr (name : string) : M Obj Fn (pyval Obj Fn) :=
  if is_identifier name then get_attr name else raise ExecTarget.

(** [self.<name>.reverse()] on a list attribute. *)
Definition reverse_list_attr (name : string) : M Obj Fn unit :=
  let* v := get_attr name in
  match v with
  | PList l => set_attr name (PList (rev l))
  | _ => raise AttributeError
  end.

(** [exec('self.' + name + '.reverse()')] *)
Definition exec_reverse (name : string) : M Obj Fn unit :=
  if is_identifier name then reverse_list_attr name else raise ExecTarget.

Definition get_names (attr : string) : M Obj Fn (list string) :=
  let* v := get_attr attr in
  match v with PList l => lift (as_names l) | _ => raise TypeError end.

(** [for name in self.time_vary: exec(...)]: the loop walks the list object
    by position, reading it afresh at each step (the body may reverse the
    list [time_vary] itself); reversals keep its length, so [fuel] equal to
    the initial length is exactly the number of steps. *)
Fixpoint flip_loop (fuel i : nat) : M Obj Fn unit :=
  match fuel with
  | O => ret tt
  | S fuel' =>
      let* tv := get_attr "time_vary" in
      match tv with
      | PList l =>
          match nth_error l i with
          | None => ret tt
          | Some (PStr name) => exec_reverse name ;;; flip_loop fuel' (S i)
          | Some _ => raise TypeError
          end
      | _ => raise TypeError
      end
  end.

(** [AgentType.timeFlip] *)
Definition timeFlip : M Obj Fn unit :=
  let* tv := get_attr "time_vary" in
  match tv with
  | PList l =>
      flip_loop (length l) 0 ;;;
      let* tf := get_attr "time_flow" in
      set_attr "time_flow" (PBool (negb (truthy tf)))
  | _ => raise TypeError
  end.

(** [AgentType.timeFwd] *)
Definition timeFwd : M Obj Fn unit :=
  let* tf := get_attr "time_flow" in
  if negb (truthy tf) then timeFlip else ret tt.

(** [AgentType.timeRev] *)
Definition timeRev : M Obj Fn unit :=
  let* tf := get_attr "time_flow" in
  if truthy tf then timeFlip else ret tt.

(** [AgentType.assignParameters], keyword arguments [kwds]: as the list of the
    dictionary's (distinct) keys with their values, in iteration order. *)
Fixpoint assignParameters (kwds : list (string * pyval Obj Fn)) : M Obj Fn unit :=
  match kwds with
  | [] => ret tt
  | (key, temp) :: rest =>
      (if is_plain_attr key then set_attr key temp else raise ExecTarget) ;;;
      assignParameters rest
  end.

(** [solveACycle], lines 177-182: the number of periods per cycle. *)
Definition period_count : M Obj Fn nat :=
  let* tv := get_names "time_vary" in
  match tv with
  | [] => ret 1%nat
  | name :: _ =>
      let* v := attr_expr name in
      match v with PList l => ret (length l) | _ => raise TypeError end
  end.

(** Lines 190-197: [solve_dict] from the time-invariant values, then
    [None] for every time-varying name (a later key overrides). *)
Fixpoint add_inv (inv : list string) (d : gmap string (pyval Obj Fn))
  : M Obj Fn (gmap string (pyval Obj Fn)) :=
  match inv with
  | [] => ret d
  | n :: inv' => let* v := attr_expr n in add_inv inv' (<[n:=v]> d)
  end.

Definition build_solve_dict (inv tv : list string)
  : M Obj Fn (gmap string (pyval Obj Fn)) :=
  let* d := add_inv inv ∅ in
  ret (foldl (fun d n => <[n:=PNone]> d) d tv).

(** Lines 210-212: [solve_dict[name] = agent.<name>[t]] for the declared
    time-varying names. *)
Fixpoint update_tv (tv args : list string) (t : nat) (d : gmap string (pyval Obj Fn))
  : M Obj Fn (gmap string (pyval Obj Fn)) :=
  match tv with
  | [] => ret d
  | n :: tv' =>
      if existsb (String.eqb n) args then
        let* v := attr_expr n in
        let* x := lift (py_index v t) in
        update_tv tv' args t (<[n:=x]> d)
      else update_tv tv' args t d
  end.

(** Line 216: [{name: solve_dict[name] for name in these_args}]. *)
Fixpoint select_args (d : gmap string (pyval Obj Fn)) (args : list string)
  : result (list (string * pyval Obj Fn)) :=
  match args with
  | [] => Ok []
  | n :: args' =>
      match d !! n with
      | Some v => rbind (select_args d args') (fun r => Ok ((n, v) :: r))
      | None => Err KeyError
      end
  end.

(** The period loop, lines 202-221: [same] is the solver resolved once when
    it is not time-varying; [sd] is the dictionary carried over periods. *)
Fixpoint periods (k t : nat) (same : option Fn) (tv : list string)
    (sd : gmap string (pyval Obj Fn)) (solution_tp1 : pyval Obj Fn)
  : M Obj Fn (list (pyval Obj Fn)) :=
  match k with
  | O => ret []
  | S k' =>
      let* f := match same with
                | Some f => ret f
                | None => let* sv := get_attr "solveAPeriod" in
                          lift (rbind (py_index sv t) as_fun)
                end in
      let these_args := getArgNames f in
      let* sd1 := update_tv tv these_args t sd in
      let sd2 := <["solution_tp1" := solution_tp1]> sd1 in
      let* temp_dict := lift (select_args sd2 these_args) in
      emit (ECall f temp_dict) ;;;
      let* solution_t := lift (fn_call f temp_dict) in
      let* rest := periods k' (S t) same tv sd2 solution_t in
      ret (solution_t :: rest)
  end.

(** [solveACycle(agent, solution_last)] *)
Definition solveACycle (solution_last : pyval Obj Fn) : M Obj Fn (list (pyval Obj Fn)) :=
  let* T := period_count in
  let* tv := get_names "time_vary" in
  let* same := if negb (existsb (String.eqb "solveAPeriod") tv)
               then let* sv := get_attr "solveAPeriod" in
                    let* f := lift (as_fun sv) in ret (Some f)
               else ret None in
  let* inv := get_names "time_inv" in
  let* solve_dict := build_solve_dict inv tv in
  periods T 0 same tv solve_dict solution_last.

(** [AgentType.isSameThing] *)
Definition isSameThing (solutionA solutionB : pyval Obj Fn) : M Obj Fn bool :=
  let* d := lift (distance solutionA solutionB) in
  let* tol := get_attr "tolerance" in
  match tol with
  | PNum q => ret (Qle_bool d q)
  | PInt z => ret (Qle_bool d (inject_Z z))
  | _ => raise TypeError
  end.

Definition max_cycles : Z := 5000.

(** The [while go:] loop of [solveAgent], lines 137-157; it returns the
    accumulated [solution] and the last [solution_cycle]. *)
Fixpoint cycle_loop (fuel : nat) (infinite_horizon : bool) (cycles_left completed_cycles : Z)
    (solution_last : pyval Obj Fn) (solution : list (pyval Obj Fn))
  : M Obj Fn (list (pyval Obj Fn) * list (pyval Obj Fn)) :=
  match fuel with
  | O => raise OutOfFuel
  | S fuel' =>
      let* solution_cycle := solveACycle solution_last in
      emit (ECycle solution_cycle) ;;;
      let solution := if infinite_horizon then solution else solution ++ solution_cycle in
      let* solution_now := lift (py_last solution_cycle) in
      let* go_left :=
        if infinite_horizon then
          if Z.gtb completed_cycles 0 then
            let* same := isSameThing solution_now solution_last in
            ret (negb same && Z.ltb completed_cycles max_cycles, cycles_left)
          else ret (true, cycles_left)
        else ret (Z.gtb (cycles_left - 1) 0, cycles_left - 1) in
      let '(go, cycles_left') := go_left in
      if go then cycle_loop fuel' infinite_horizon cycles_left' (completed_cycles + 1)
                   solution_now solution
      else ret (solution, solution_cycle)
  end.

(** [solveAgent(agent)].  The loop stops after [max(1, cycles)] cycles
    (finite horizon) or at most [max_cycles + 1] (infinite horizon): the
    fuel covers both. *)
Definition solveAgent : M Obj Fn (list (pyval Obj Fn)) :=
  let* original_time_flow := get_attr "time_flow" in
  timeRev ;;;
  let* c := get_attr "cycles" in
  let* cycles_left := lift (as_int c) in
  let infinite_horizon := Z.eqb cycles_left 0 in
  let* pt := get_attr "pseudo_terminal" in
  let* solution := if negb (truthy pt)
                   then let* st := get_attr "solution_terminal" in ret [deepcopy st]
                   else ret [] in
  let* solution_last := get_attr "solution_terminal" in
  let* res := cycle_loop (Z.to_nat cycles_left + Z.to_nat max_cycles + 1)
                infinite_horizon cycles_left 0 solution_last solution in
  let '(solution, solution_cycle) := res in
  let solution := if infinite_horizon then solution_cycle else solution in
  (if truthy original_time_flow then timeFwd else ret tt) ;;;
  ret solution.

(** [AgentType.solve]; [preSolve] and [postSolve] do nothing here. *)
Definition solve : M Obj Fn unit :=
  let* sol := solveAgent in
  set_attr "solution" (PList sol) ;;;
  let* tf := get_attr "time_flow" in
  (if truthy tf then reverse_list_attr "solution" else ret tt) ;;;
  let* tv := get_attr "time_vary" in
  match tv with
  | PList l => if existsb is_solution_str l then ret tt
               else set_attr "time_vary" (PList (l ++ [PStr "solution"]))
  | _ => raise TypeError
  end.

End Agent.

(** ** The SMM objective (ConsumptionSavingModel/SolvingMicroDSOPs.py) *)

Section Agent_more.
Context {Obj Fn : Type}.

(** [AgentType.timeReport]: the line it prints is returned beside the
    value of [time_flow] it returns. *)
Definition timeReport : M Obj Fn (string * pyval Obj Fn) :=
  let* tf := get_attr "time_flow" in
  ret (if truthy tf
       then "Time varying objects are listed in ordinary chronological order."%string
       else "Time varying objects are listed in reverse chronological order."%string, tf).

End Agent_more.

Section SMM.
Context {Obj Fn : Type} {RT : Runtime Obj Fn}.
(** [Params.timevary_discount_factors] *)
Context (timevary_discount_factors : list Q).
(** Lines 72-83: [unpack_cFunc], [simulate] and the weighted distance to
    the data, model-specific collaborators that are not among the sources. *)
Context (simulate_and_measure : M Obj Fn Q).

(** The binary64 value of the literal [1e30]. *)
Definition sentinel_1e30 : Q := inject_Z 1000000000000000019884624838656.

(** [smmObjectiveFxn(beth, rho, agent, beth_bound, rho_bound, ...)] *)
Definition smmObjectiveFxn (beth rho : Q) (beth_bound rho_bound : Q * Q) : M Obj Fn Q :=
  let* original_time_flow := get_attr "time_flow" in
  timeFwd ;;;
  if qlt beth beth_bound.1 || qlt beth_bound.2 beth ||
     qlt rho rho_bound.1 || qlt rho_bound.2 rho
  then ret sentinel_1e30
  else
    assignParameters
      [("beta", PList (map (fun b => PNum (b * beth)) timevary_discount_factors));
       ("rho", PNum rho)] ;;;
    solve ;;;
    let* distance_sum := simulate_and_measure in
    (if negb (truthy original_time_flow) then timeRev else ret tt) ;;;
    ret distance_sum.

End SMM.

(** The number of completed cycles recorded in a log. *)
Fixpoint count_cycles {Obj Fn} (l : list (event Obj Fn)) : nat :=
  match l with
  | [] => O
  | ECycle _ :: l' => S (count_cycles l')
  | ECall _ _ :: l' => count_cycles l'
  end.

(** ** Small concrete agents *)

Module Fixture.

(** Solvers: [FSucc(solution_tp1)] returns [solution_tp1 + 1];
    [FScaled(beta, solution_tp1)] returns [beta * solution_tp1 + 1]. *)
Inductive fn := FSucc | FScaled.

Definition lookup_kw (n : string) (kw : list (string * pyval unit fn)) : option (pyval unit fn) :=
  match find (fun p => String.eqb p.1 n) kw with Some p => Some p.2 | None => None end.

Definition fn_call_ (f : fn) (kw : list (string * pyval unit fn)) : result (pyval unit fn) :=
  match f, lookup_kw "solution_tp1" kw, lookup_kw "beta" kw with
  | FSucc, Some (PInt z), _ => Ok (PInt (z + 1))
  | FScaled, Some (PInt z), Some (PInt b) => Ok (PInt (b * z + 1))
  | _, _, _ => Err SolverRaised
  end.

Definition dist_ (a b : pyval unit fn) : result Q :=
  match a, b with
  | PInt x, PInt y => Ok (inject_Z (Z.abs (x - y)))
  | _, _ => Err AttributeError
  end.

#[export] Instance runtime : Runtime unit fn := {
  getArgNames f := match f with
                   | FSucc => ["solution_tp1"]%string
                   | FScaled => ["beta"; "solution_tp1"]%string
                   end;
  fn_call := fn_call_;
  distance := dist_
}.

Definition strs (l : list string) : pyval unit fn := PList (map PStr l).
Definition ints (l : list Z) : pyval unit fn := PList (map PInt l).

(** An agent with the constructor's attributes and the given ones. *)
Definition agent (time_vary time_inv : list string) (cycles : Z) (time_flow pseudo_terminal : bool)
    (solver : fn) (extra : list (string * pyval unit fn)) : world unit fn :=
  mkWorld (list_to_map (app
    [("solution_terminal", PInt 0); ("cycles", PInt cycles); ("time_flow", PBool time_flow);
     ("pseudo_terminal", PBool pseudo_terminal); ("solveAPeriod", PFun solver);
     ("tolerance", PNum 0); ("time_vary", strs time_vary); ("time_inv", strs time_inv)]%string
    extra)) [].

Definition attr (n : string) (w : world unit fn) : option (pyval unit fn) := attrs w !! n.

Definition run {A} (m : M unit fn A) (w : world unit fn) : result (A * world unit fn) := m w.

(** The [solution] attribute after one [solve()], and after a second one. *)
Definition solution_after (w : world unit fn) : option (pyval unit fn) :=
  match run solve w with Ok (_, w') => attr "solution" w' | Err _ => None end.

Definition solutions_after_two_solves (w : world unit fn)
  : option (option (pyval unit fn) * option (pyval unit fn)) :=
  match run solve w with
  | Ok (_, w1) =>
      match run solve w1 with
      | Ok (_, w2) => Some (attr "solution" w1, attr "solution" w2)
      | Err _ => None
      end
  | Err _ => None
  end.

(** The three-period agent of the ordering example: terminal solution 0,
    [solveAPeriod] returning [solution_tp1 + 1], one cycle, terminal
    excluded from the output. *)
Definition three_periods (time_flow : bool) : world unit fn :=
  agent ["x"] [] 1 time_flow true FSucc [("x", ints [0; 0; 0])]%string.

(** [three_periods false] after [timeFwd()]. *)
Definition three_periods_forward : world unit fn :=
  match run timeFwd (three_periods false) with
  | Ok (_, w) => w
  | Err _ => three_periods false
  end.

(** A two-period agent whose time flows backward, and the same agent after
    [timeFlip()]. *)
Definition two_period_backward : world unit fn :=
  agent ["x"] [] 1 false true FSucc [("x", ints [1; 2])]%string.

Definition flipped (w : world unit fn) : world unit fn :=
  match run timeFlip w with Ok (_, w') => w' | Err _ => w end.

(** An infinite-horizon agent whose solutions never repeat: every cycle adds
    one, the distance between successive ones is 1 and the tolerance 0. *)
Definition never_converges : world unit fn := agent [] [] 0 false true FSucc [].

(** A finite-horizon agent with no time-varying parameter (one period per
    cycle) and two cycles. *)
Definition all_time_invariant : world unit fn := agent [] [] 2 false true FSucc [].

(** A three-period agent with two cycles whose output includes the terminal
    solution; its time flows forward. *)
Definition two_cycles_with_terminal : world unit fn :=
  agent ["x"] [] 2 true false FSucc [("x", ints [0; 0; 0])]%string.

(** An infinite-horizon agent with two periods that converges: with
    [beta = 0] every period's solution is 1, so the second cycle repeats the
    first.  Its output would include the terminal solution if it were finite. *)
Definition converging_infinite : world unit fn :=
  agent ["beta"] [] 0 false false FScaled [("beta", ints [0; 0])]%string.

(** An agent with a time-varying [beta] that its solver declares, and a
    time-varying [x] and a time-invariant [rho] that it does not. *)
Definition declared_subset : world unit fn :=
  agent ["beta"; "x"] ["rho"] 1 false true FScaled
    [("beta", ints [2; 3]); ("x", ints [7; 7]); ("rho", PInt 5)]%string.

(** An agent whose solver declares [beta], which it does not have. *)
Definition beta_missing : world unit fn :=
  agent ["x"] [] 1 false true FScaled [("x", ints [0; 0])]%string.

(** The world after [timeRev()], and the results of [solve()],
    [solveAgent()] and of one cycle seeded with [sl]. *)
Definition after_timeRev (w : world unit fn) : world unit fn :=
  match run timeRev w with Ok (_, w') => w' | Err _ => w end.

Definition after_solve (w : world unit fn) : world unit fn :=
  match run solve w with Ok (_, w') => w' | Err _ => w end.

Definition solveAgent_result (w : world unit fn) : list (pyval unit fn) * world unit fn :=
  match run solveAgent w with Ok r => r | Err _ => ([], w) end.

Definition cycle_result (sl : pyval unit fn) (w : world unit fn)
  : list (pyval unit fn) * world unit fn :=
  match run (solveACycle sl) w with Ok r => r | Err _ => ([], w) end.

(** A finite-horizon agent with a negative number of cycles that keeps the
    terminal solution. *)
Definition negative_cycles : world unit fn :=
  agent ["x"] [] (-3) false false FSucc [("x", ints [0; 0])]%string.

(** An agent whose first time-varying list is empty: it has no period. *)
Definition no_periods : world unit fn :=
  agent ["x"] [] 1 false true FSucc [("x", ints [])]%string.

(** Three periods (the length of [x]), but the declared [beta] has only two
    elements. *)
Definition short_beta : world unit fn :=
  agent ["x"; "beta"] [] 1 false true FScaled
    [("x", ints [0; 0; 0]); ("beta", ints [2; 3])]%string.

(** The agent after [smmObjectiveFxn] with discount factors [1, 1] and a
    simulation that measures distance 0. *)
Definition after_smm (beth rho : Q) (bb rb : Q * Q) (w : world unit fn) : world unit fn :=
  match run (smmObjectiveFxn [1; 1]%Q (ret 0%Q) beth rho bb rb) w with
  | Ok (_, w') => w'
  | Err _ => w
  end.

End Fixture.


(** ** The effect of [timeFlip] on the attributes *)

Section Flip_spec.
Context {Obj Fn : Type}.

Definition rev_opt (o : option (pyval Obj Fn)) : option (pyval Obj Fn) :=
  match o with Some (PList l) => Some (PList (rev l)) | _ => o end.

(** Reversing the list attribute [n], if it is one. *)
Definition rev_at (m : gmap string (pyval Obj Fn)) (v : pyval Obj Fn) : gmap string (pyval Obj Fn) :=
  match v with
  | PStr n => match m !! n with Some (PList l) => <[n:=PList (rev l)]> m | _ => m end
  | _ => m
  end.

(** [v] names an attribute that [exec('self.' + name + '.reverse()')] can
    reverse. *)
Definition rev_target (m : gmap string (pyval Obj Fn)) (v : pyval Obj Fn) : Prop :=
  exists n l, v = PStr n /\ is_identifier n = true /\ m !! n = Some (PList l).

Definition str_is (k : string) (v : pyval Obj Fn) : bool :=
  match v with PStr n => String.eqb n k | _ => false end.

Fixpoint occurrences (k : string) (l : list (pyval Obj Fn)) : nat :=
  match l with
  | [] => O
  | v :: l' => if str_is k v then S (occurrences k l') else occurrences k l'
  end.

End Flip_spec.

(** ** What the claims say a period's solver receives *)

Section Arg_spec.
Context {Obj Fn : Type}.

(** The solver of period [t]: the [t]-th element of [solveAPeriod] when
    its name is time-varying, [solveAPeriod] itself otherwise. *)
Definition period_solver (A : gmap string (pyval Obj Fn)) (tv : list string) (t : nat) : option Fn :=
  match A !! "solveAPeriod"%string with
  | Some v =>
      if existsb (String.eqb "solveAPeriod") tv
      then match py_index v t with Ok (PFun f) => Some f | _ => None end
      else match v with PFun f => Some f | _ => None end
  | None => None
  end.

(** The next-period solution of period [t]: the seed for the first period,
    the solution of the previous period otherwise. *)
Definition next_solution_at (solution_last : pyval Obj Fn) (sols : list (pyval Obj Fn)) (t : nat)
  : option (pyval Obj Fn) :=
  match t with O => Some solution_last | S t' => sols !! t' end.

(** The value a declared argument [n] is to receive at period [t]: the
    next-period solution for [solution_tp1], the [t]-th element of a
    time-varying parameter, the value of a time-invariant one; [None] when
    [n] is none of these. *)
Definition expected_arg (A : gmap string (pyval Obj Fn)) (tv inv : list string) (t : nat)
    (tp1 : pyval Obj Fn) (n : string) : option (pyval Obj Fn) :=
  if String.eqb n "solution_tp1" then Some tp1
  else if existsb (String.eqb n) tv then
    match A !! n with
    | Some v => match py_index v t with Ok x => Some x | Err _ => None end
    | None => None
    end
  else if existsb (String.eqb n) inv then A !! n
  else None.

(** The dictionary built before the period loop holds the time-invariant
    values under every name that is not time-varying. *)
Definition dict_ok (A : gmap string (pyval Obj Fn)) (tv inv : list string)
    (sd : gmap string (pyval Obj Fn)) : Prop :=
  forall n, n <> "solution_tp1"%string -> existsb (String.eqb n) tv = false ->
  sd !! n = if existsb (String.eqb n) inv then A !! n else None.

(** An attribute that is not a list: [timeFlip] leaves it alone. *)
Definition not_list (o : option (pyval Obj Fn)) : Prop :=
  match o with Some (PList _) => False | _ => True end.

End Arg_spec.

(** * Proofs *)

Section Monad_facts.
Context {Obj Fn : Type}.

Lemma bind_inv {A B} (m : M Obj Fn A) (k : A -> M Obj Fn B) w r :
  bind m k w = Ok r -> exists x w', m w = Ok (x, w') /\ k x w' = Ok r.
Proof. unfold bind. destruct (m w) as [[x w']|e]; [eauto|discriminate]. Qed.

Lemma get_attr_inv n (w w' : world Obj Fn) v :
  get_attr n w = Ok (v, w') -> w' = w /\ attrs w !! n = Some v.
Proof. unfold get_attr. destruct (attrs w !! n); intros H; inversion H; auto. Qed.

Lemma lift_inv {A} (r : result A) (w w' : world Obj Fn) x :
  lift r w = Ok (x, w') -> w' = w /\ r = Ok x.
Proof. unfold lift. destruct r; intros H; inversion H; auto. Qed.

Lemma ret_inv {A} (a : A) (w w' : world Obj Fn) x :
  ret a w = Ok (x, w') -> w' = w /\ x = a.
Proof. unfold ret. intros H; inversion H; auto. Qed.

End Monad_facts.

Ltac bind_step H :=
  apply bind_inv in H;
  let x := fresh "x" in let w := fresh "w" in let Hm := fresh "Hm" in
  destruct H as (x & w & Hm & H); cbn beta in H.

Section Claims_concrete.
Import Fixture.

(** C5 (counterexample): with terminal solution 0, a solver returning
    [solution_tp1 + 1] and three periods without the terminal, [solve()]
    does not store [[1, 2, 3]] for both starting values of [time_flow]. *)
Lemma C5_not_123_for_both_flows :
  ~ (forall tf : bool, solution_after (three_periods tf) = Some (ints [1; 2; 3])).
Proof. intros H. specialize (H true). vm_compute in H. discriminate H. Qed.

(** C8 (code_bug, evaluation at the failing input): for an agent with no
    time-varying parameter, the first [solve()] registers ['solution'] as
    time-varying, so the second [solve()] takes the period count from the
    stored solution (2 instead of 1) and returns a history twice as long. *)
Theorem C8_second_solve_differs :
  solutions_after_two_solves all_time_invariant =
    Some (Some (ints [1; 2]), Some (ints [1; 2; 3; 4])).
Proof. vm_compute. reflexivity. Qed.

End Claims_concrete.

Section Flip_facts.
Context {Obj Fn : Type} {RT : Runtime Obj Fn}.

Definition same_truth (m m' : gmap string (pyval Obj Fn)) : Prop :=
  forall k, option_map truthy (m' !! k) = option_map truthy (m !! k).

Lemma reverse_list_attr_truth n (w w' : world Obj Fn) u :
  reverse_list_attr n w = Ok (u, w') -> log w' = log w /\ same_truth (attrs w) (attrs w').
Proof.
  unfold reverse_list_attr. intros H. bind_step H. apply get_attr_inv in Hm as [-> Hn].
  destruct x; try discriminate. unfold set_attr in H. inversion H; subst. simpl.
  split; [done|]. intros k. destruct (decide (n = k)) as [<-|Hne].
  - rewrite lookup_insert_eq, Hn. simpl. rewrite length_rev. done.
  - rewrite lookup_insert_ne; done.
Qed.

Lemma exec_reverse_truth n (w w' : world Obj Fn) u :
  exec_reverse n w = Ok (u, w') -> log w' = log w /\ same_truth (attrs w) (attrs w').
Proof.
  unfold exec_reverse. destruct (is_identifier n); [apply reverse_list_attr_truth|discriminate].
Qed.

Lemma flip_loop_truth fuel i (w w' : world Obj Fn) u :
  flip_loop fuel i w = Ok (u, w') -> log w' = log w /\ same_truth (attrs w) (attrs w').
Proof.
  revert i w. induction fuel as [|fuel IH]; intros i w H; simpl in H.
  - inversion H; subst. split; [done|]. intros k; done.
  - bind_step H. apply get_attr_inv in Hm as [-> _].
    destruct x as [| | | | |l| |]; try discriminate.
    destruct (nth_error l i) as [[| | | |name| | |]|]; try discriminate.
    + bind_step H. apply exec_reverse_truth in Hm as [Hl1 Ht1].
      apply IH in H as [Hl2 Ht2]. split; [congruence|].
      intros k. rewrite Ht2, Ht1. done.
    + inversion H; subst. split; [done|]. intros k; done.
Qed.

Lemma timeFlip_time_flow (w w' : world Obj Fn) u :
  timeFlip w = Ok (u, w') ->
  log w' = log w /\
  exists tf, attrs w !! "time_flow" = Some tf /\
             attrs w' !! "time_flow" = Some (PBool (negb (truthy tf))).
Proof.
  unfold timeFlip. intros H. bind_step H. apply get_attr_inv in Hm as [-> _].
  destruct x as [| | | | |l| |]; try discriminate.
  bind_step H. apply flip_loop_truth in Hm as [Hl Ht].
  bind_step H. apply get_attr_inv in Hm as [-> Htf].
  unfold set_attr in H. inversion H; subst. simpl. split; [done|].
  specialize (Ht "time_flow"%string). rewrite Htf in Ht.
  destruct (attrs w !! "time_flow") as [tf0|] eqn:E; [|discriminate].
  exists tf0. split; [done|]. rewrite lookup_insert_eq. simpl in Ht.
  inversion Ht as [Heq]. rewrite Heq. done.
Qed.

Lemma timeFwd_forward (w w' : world Obj Fn) u :
  timeFwd w = Ok (u, w') ->
  log w' = log w /\
  exists v, attrs w' !! "time_flow" = Some v /\ truthy v = true.
Proof.
  unfold timeFwd. intros H. bind_step H. apply get_attr_inv in Hm as [-> Htf].
  destruct (truthy x) eqn:Tx; simpl in H.
  - apply ret_inv in H as [-> _]. split; [done|]. eauto.
  - apply timeFlip_time_flow in H as [Hl (tf & Htf' & Hnew)].
    split; [done|]. rewrite Htf in Htf'. inversion Htf'; subst.
    exists (PBool true). rewrite Hnew, Tx. done.
Qed.

End Flip_facts.

Section Claim_SMM.
Context {Obj Fn : Type} {RT : Runtime Obj Fn}.

(** C10: when [beth] or [rho] lies outside its bound, [smmObjectiveFxn]
    returns the sentinel [1e30] from the state left by [timeFwd()]: no
    solver call and no cycle is logged (the result does not depend on the
    solve/simulate steps), the agent's time now flows forward, and it is not
    restored: a [time_flow] that was false at entry is not back. *)
Theorem C10_out_of_bounds_returns_sentinel_unrestored
    (tvdf : list Q) (sim : M Obj Fn Q) (beth rho : Q) (bb rb : Q * Q)
    (w w1 : world Obj Fn) (u : unit) :
  qlt beth bb.1 || qlt bb.2 beth || qlt rho rb.1 || qlt rb.2 rho = true ->
  timeFwd w = Ok (u, w1) ->
  smmObjectiveFxn tvdf sim beth rho bb rb w = Ok (sentinel_1e30, w1) /\
  log w1 = log w /\
  (exists v, attrs w1 !! "time_flow" = Some v /\ truthy v = true) /\
  (forall v0, attrs w !! "time_flow" = Some v0 -> truthy v0 = false ->
              attrs w1 !! "time_flow" <> Some v0).
Proof.
  intros Hout Hfwd.
  pose proof (timeFwd_forward _ _ _ Hfwd) as [Hlog (v & Hv & Tv)].
  assert (Hin : exists tf, attrs w !! "time_flow" = Some tf).
  { unfold timeFwd in Hfwd. apply bind_inv in Hfwd as (x & ? & Hm & _).
    apply get_attr_inv in Hm as [_ Hx]. eauto. }
  destruct Hin as [tf Htf].
  split; [|split; [done|split; [eauto|]]].
  - unfold smmObjectiveFxn, bind at 1. unfold get_attr at 1. rewrite Htf.
    unfold bind. rewrite Hfwd. destruct u. rewrite Hout. reflexivity.
  - intros v0 Hv0 F0 E. rewrite Hv in E. inversion E; subst. congruence.
Qed.

End Claim_SMM.

Section Witness_SMM.
Import Fixture.
Local Open Scope Q_scope.

Lemma C10_witness :
  (qlt 2 0 || qlt 1 2 || qlt 3 1 || qlt 5 3 = true /\
   timeFwd (three_periods false) = Ok (tt, three_periods_forward)) /\
  (smmObjectiveFxn [1; 1] (ret 0) 2 3 (0, 1) (1, 5) (three_periods false)
     = Ok (sentinel_1e30, three_periods_forward) /\
   log three_periods_forward = log (three_periods false) /\
   (exists v, attrs three_periods_forward !! "time_flow" = Some v /\ truthy v = true) /\
   (forall v0, attrs (three_periods false) !! "time_flow" = Some v0 ->
               truthy v0 = false -> attrs three_periods_forward !! "time_flow" <> Some v0)).
Proof.
  assert (E : timeFwd (three_periods false) = Ok (tt, three_periods_forward))
    by (vm_compute; reflexivity).
  split; [split; [vm_compute; reflexivity | exact E]|].
  exact (C10_out_of_bounds_returns_sentinel_unrestored [1; 1] (ret 0) 2 3 (0, 1) (1, 5)
           (three_periods false) three_periods_forward tt (eq_refl _) E).
Defined.

End Witness_SMM.

Section Claim_assign.
Context {Obj Fn : Type} {RT : Runtime Obj Fn}.

(** C9 (amended): for a mapping whose keys are distinct plain attribute
    names (Python identifiers that are neither reserved words, [None],
    [True] and [False] included, nor special [__names__]),
    [assignParameters] succeeds; afterwards each key holds exactly its
    value and every other attribute is unchanged. *)
Theorem C9_assign_identifier_keys (kwds : list (string * pyval Obj Fn)) (w : world Obj Fn) :
  NoDup (map fst kwds) ->
  Forall (fun p => is_plain_attr p.1 = true) kwds ->
  exists w', assignParameters kwds w = Ok (tt, w') /\ log w' = log w /\
    (forall k v, In (k, v) kwds -> attrs w' !! k = Some v) /\
    (forall k, ~ In k (map fst kwds) -> attrs w' !! k = attrs w !! k).
Proof.
  revert w. induction kwds as [|[key temp] rest IH]; intros w Hnd Hid.
  - exists w. simpl. split; [done|]. split; [done|]. split; [intros ? ? []|done].
  - simpl in Hnd. inversion Hnd as [|? ? Hnin Hnd']; subst.
    inversion Hid as [|? ? Hk Hid']; subst. simpl in Hk.
    destruct (IH (mkWorld (<[key:=temp]> (attrs w)) (log w)) Hnd' Hid')
      as (w' & Hrun & Hlog & Hset & Hframe).
    exists w'. simpl. rewrite Hk. unfold bind at 1, set_attr at 1.
    split; [exact Hrun|]. split; [rewrite Hlog; done|]. split.
    + intros k v [Heq|Hin].
      * inversion Heq; subst.
        rewrite Hframe by (intros Hin; apply Hnin;
                           first [exact Hin | apply list_elem_of_In; exact Hin]).
        simpl. apply lookup_insert_eq.
      * apply Hset, Hin.
    + intros k Hk'. rewrite Hframe by (intros Hin; apply Hk'; right; exact Hin).
      simpl. rewrite lookup_insert_ne; [done|]. intros ->. apply Hk'. left. done.
Qed.

End Claim_assign.

Section Witness_assign.
Import Fixture.

(** C9 (counterexample): a keyword argument named [class] (a reserved word)
    is not assigned: [exec('self.class = temp')] raises. *)
Lemma C9_reserved_word_key_not_assigned :
  ~ exists w', assignParameters [("class", PInt 1)]%string (three_periods false) = Ok (tt, w') /\
               attrs w' !! "class"%string = Some (PInt 1).
Proof. intros (w' & H & _). vm_compute in H. discriminate H. Qed.

Lemma C9_witness :
  (NoDup (map fst [("beta", ints [2; 3]); ("rho", PInt 5)]%string) /\
   Forall (fun p : string * pyval unit fn => is_plain_attr p.1 = true)
          [("beta", ints [2; 3]); ("rho", PInt 5)]%string) /\
  exists w', assignParameters [("beta", ints [2; 3]); ("rho", PInt 5)]%string (three_periods false)
               = Ok (tt, w') /\ log w' = log (three_periods false) /\
    (forall k v, In (k, v) [("beta", ints [2; 3]); ("rho", PInt 5)]%string -> attrs w' !! k = Some v) /\
    (forall k, ~ In k (map fst [("beta", ints [2; 3]); ("rho", PInt 5)]%string) ->
               attrs w' !! k = attrs (three_periods false) !! k).
Proof.
  assert (Hnd : NoDup (map fst [("beta", ints [2; 3]); ("rho", PInt 5)]%string)).
  { simpl. constructor; [|constructor; [|constructor]].
    - intros Hin. apply list_elem_of_In in Hin. simpl in Hin.
      destruct Hin as [H|[]]. discriminate H.
    - intros Hin. apply list_elem_of_In in Hin. destruct Hin. }
  assert (Hid : Forall (fun p : string * pyval unit fn => is_plain_attr p.1 = true)
                  [("beta", ints [2; 3]); ("rho", PInt 5)]%string).
  { repeat constructor. }
  split; [split; [exact Hnd | exact Hid]|].
  exact (C9_assign_identifier_keys _ (three_periods false) Hnd Hid).
Defined.

End Witness_assign.

Section Flip_round_trip.
Context {Obj Fn : Type} {RT : Runtime Obj Fn}.
Implicit Types (m : gmap string (pyval Obj Fn)) (w : world Obj Fn) (l : list (pyval Obj Fn)).

Lemma rev_opt_involutive (o : option (pyval Obj Fn)) : rev_opt (rev_opt o) = o.
Proof. destruct o as [[| | | | |l| |]|]; simpl; try done. rewrite rev_involutive. done. Qed.

Lemma iter_involution {A} (f : A -> A) (Hf : forall x, f (f x) = x) c x :
  Nat.iter c f (Nat.iter c f x) = x.
Proof.
  revert x. induction c as [|c IH]; intros x; [done|].
  rewrite Nat.iter_succ. rewrite (Nat.iter_succ_r c). rewrite IH. apply Hf.
Qed.

Lemma iter_rev_opt_list c (l0 : list (pyval Obj Fn)) :
  exists l', Nat.iter c rev_opt (Some (PList l0)) = Some (PList l').
Proof.
  induction c as [|c [l' IH]]; [eauto|]. rewrite Nat.iter_succ, IH. simpl. eauto.
Qed.

Lemma iter_rev_opt_bool c (b : bool) :
  Nat.iter c (@rev_opt Obj Fn) (Some (PBool b)) = Some (PBool b).
Proof. induction c as [|c IH]; [done|]. rewrite Nat.iter_succ, IH. done. Qed.

Lemma rev_at_lookup m v k :
  rev_at m v !! k = if str_is k v then rev_opt (m !! k) else m !! k.
Proof.
  destruct v as [| | | |n| | |]; simpl; try done.
  destruct (String.eqb_spec n k) as [<-|Hne].
  - destruct (m !! n) as [[| | | | |l| |]|] eqn:E; simpl; rewrite ?E; try done.
    apply lookup_insert_eq.
  - destruct (m !! n) as [[| | | | |l| |]|]; try done. apply lookup_insert_ne. done.
Qed.

Lemma fold_rev_at_lookup l m k :
  fold_left rev_at l m !! k = Nat.iter (occurrences k l) rev_opt (m !! k).
Proof.
  revert m. induction l as [|v l IH]; intros m; [done|].
  simpl. rewrite IH, rev_at_lookup. destruct (str_is k v); [|done].
  rewrite Nat.iter_succ_r. done.
Qed.

Lemma occurrences_absent k l : ~ In (PStr k) l -> occurrences k l = O.
Proof.
  induction l as [|v l IH]; intros Hn; [done|]. simpl.
  destruct (str_is k v) eqn:E.
  - destruct v; try discriminate. apply String.eqb_eq in E. subst.
    exfalso. apply Hn. left. done.
  - apply IH. intros Hin. apply Hn. right. done.
Qed.

Lemma rev_target_rev_at m v u : rev_target (rev_at m v) u <-> rev_target m u.
Proof.
  unfold rev_target. split.
  - intros (n & l0 & -> & Hid & Hl). rewrite rev_at_lookup in Hl.
    destruct (str_is n v); [|eauto].
    destruct (m !! n) as [[| | | | |l1| |]|] eqn:E; simpl in Hl; try discriminate.
    exists n, l1. done.
  - intros (n & l0 & -> & Hid & Hl). pose proof (rev_at_lookup m v n) as E.
    rewrite Hl in E. destruct (str_is n v); simpl in E; [exists n, (rev l0)|exists n, l0]; done.
Qed.

Lemma nth_error_drop l i x : nth_error l i = Some x -> drop i l = x :: drop (S i) l.
Proof.
  revert i. induction l as [|y l IH]; intros [|i] H; simpl in H; try discriminate.
  - inversion H; subst. done.
  - simpl. apply IH. done.
Qed.

Lemma nth_error_drop_none l i : nth_error l i = None -> drop i l = [].
Proof.
  revert i. induction l as [|y l IH]; intros [|i] H; simpl in H; try discriminate; try done.
  simpl. apply IH. done.
Qed.

Lemma world_eta w : w = mkWorld (attrs w) (log w).
Proof. destruct w; done. Qed.

(** Under a [time_vary] list that does not name itself, [flip_loop] reverses
    the named attributes one after the other. *)
Lemma flip_loop_sound fuel i l w w' u :
  attrs w !! "time_vary" = Some (PList l) -> ~ In (PStr "time_vary") l ->
  flip_loop fuel i w = Ok (u, w') ->
  Forall (rev_target (attrs w)) (take fuel (drop i l)) /\
  w' = mkWorld (fold_left rev_at (take fuel (drop i l)) (attrs w)) (log w).
Proof.
  intros Htv Hself. revert i w Htv. induction fuel as [|fuel IH]; intros i w Htv H; simpl in H.
  - inversion H; subst. split; [constructor|]. apply world_eta.
  - bind_step H. apply get_attr_inv in Hm as [-> Hx]. rewrite Htv in Hx.
    inversion Hx; subst.
    destruct (nth_error l i) as [v|] eqn:Hnth.
    + rewrite (nth_error_drop _ _ _ Hnth). simpl.
      destruct v as [| | | |name| | |]; try discriminate.
      assert (Hne : name <> "time_vary"%string).
      { intros ->. apply Hself. eapply nth_error_In. exact Hnth. }
      bind_step H. unfold exec_reverse in Hm.
      destruct (is_identifier name) eqn:Hid; [|discriminate].
      unfold reverse_list_attr in Hm. bind_step Hm. apply get_attr_inv in Hm0 as [-> Hn].
      destruct x0 as [| | | | |l0| |]; try discriminate.
      unfold set_attr in Hm. inversion Hm; subst.
      assert (Hw0 : <[name:=PList (rev l0)]> (attrs w) = rev_at (attrs w) (PStr name))
        by (simpl; rewrite Hn; done).
      rewrite Hw0 in H.
      assert (Htv' : attrs (mkWorld (rev_at (attrs w) (PStr name)) (log w)) !! "time_vary"
                     = Some (PList l)).
      { cbn [attrs]. rewrite rev_at_lookup. cbn [str_is].
        destruct (String.eqb_spec name "time_vary"); [contradiction|exact Htv]. }
      destruct (IH (S i) _ Htv' H) as [Hall ->].
      split; [|done]. constructor.
      * exists name, l0. done.
      * eapply Forall_impl; [exact Hall|]. intros v Hv. cbn [attrs] in Hv. apply rev_target_rev_at in Hv. exact Hv.
    + rewrite (nth_error_drop_none _ _ Hnth). simpl. inversion H; subst.
      split; [constructor|]. apply world_eta.
Qed.

Lemma flip_loop_complete fuel i l w :
  attrs w !! "time_vary" = Some (PList l) -> ~ In (PStr "time_vary") l ->
  Forall (rev_target (attrs w)) (take fuel (drop i l)) ->
  flip_loop fuel i w = Ok (tt, mkWorld (fold_left rev_at (take fuel (drop i l)) (attrs w)) (log w)).
Proof.
  intros Htv Hself. revert i w Htv. induction fuel as [|fuel IH]; intros i w Htv Hall; simpl.
  - rewrite <- world_eta. done.
  - unfold bind at 1, get_attr at 1. rewrite Htv.
    destruct (nth_error l i) as [v|] eqn:Hnth.
    + rewrite (nth_error_drop _ _ _ Hnth) in Hall |- *. simpl in Hall |- *.
      inversion Hall as [|? ? Hv Hrest]; subst.
      destruct Hv as (name & l0 & -> & Hid & Hn).
      assert (Hne : name <> "time_vary"%string).
      { intros ->. apply Hself. eapply nth_error_In. exact Hnth. }
      unfold bind at 1, exec_reverse. rewrite Hid. unfold reverse_list_attr, bind at 1, get_attr at 1.
      rewrite Hn. unfold set_attr.
      assert (Hw0 : <[name:=PList (rev l0)]> (attrs w) = rev_at (attrs w) (PStr name))
        by (simpl; rewrite Hn; done).
      rewrite Hw0. apply (IH (S i) (mkWorld _ (log w))).
      * cbn [attrs]. rewrite rev_at_lookup. cbn [str_is].
        destruct (String.eqb_spec name "time_vary"); [contradiction|exact Htv].
      * eapply Forall_impl; [exact Hrest|]. intros v Hv. cbn [attrs]. apply rev_target_rev_at. exact Hv.
    + rewrite (nth_error_drop_none _ _ Hnth). simpl. rewrite <- world_eta. done.
Qed.

Lemma flip_all_complete l w :
  attrs w !! "time_vary" = Some (PList l) -> ~ In (PStr "time_vary") l ->
  Forall (rev_target (attrs w)) l ->
  flip_loop (length l) 0 w = Ok (tt, mkWorld (fold_left rev_at l (attrs w)) (log w)).
Proof.
  intros Htv Hself Hall. pose proof (flip_loop_complete (length l) 0 l w Htv Hself) as H.
  rewrite drop_0, take_ge in H by lia. apply H, Hall.
Qed.

Lemma timeFlip_sound l w w1 u (b : bool) :
  attrs w !! "time_vary" = Some (PList l) -> ~ In (PStr "time_vary") l ->
  attrs w !! "time_flow" = Some (PBool b) ->
  timeFlip w = Ok (u, w1) ->
  Forall (rev_target (attrs w)) l /\
  w1 = mkWorld (<["time_flow" := PBool (negb b)]> (fold_left rev_at l (attrs w))) (log w).
Proof.
  intros Htv Hself Htf H. unfold timeFlip in H. bind_step H.
  apply get_attr_inv in Hm as [-> Hx]. rewrite Htv in Hx. inversion Hx; subst.
  bind_step H. apply (flip_loop_sound _ _ l) in Hm; [|done|done].
  rewrite drop_0, take_ge in Hm by lia. destruct Hm as [Hall ->].
  bind_step H. apply get_attr_inv in Hm as [-> Hy]. cbn [attrs] in Hy.
  rewrite fold_rev_at_lookup, Htf, iter_rev_opt_bool in Hy. inversion Hy; subst.
  unfold set_attr in H. inversion H; subst. split; done.
Qed.

Lemma timeFlip_complete l w (b : bool) :
  attrs w !! "time_vary" = Some (PList l) -> ~ In (PStr "time_vary") l ->
  attrs w !! "time_flow" = Some (PBool b) ->
  Forall (rev_target (attrs w)) l ->
  timeFlip w =
    Ok (tt, mkWorld (<["time_flow" := PBool (negb b)]> (fold_left rev_at l (attrs w))) (log w)).
Proof.
  intros Htv Hself Htf Hall. unfold timeFlip. cbv [bind get_attr]. rewrite Htv.
  rewrite flip_all_complete by done. cbv beta iota. cbn [attrs log].
  rewrite fold_rev_at_lookup, Htf, iter_rev_opt_bool. reflexivity.
Qed.

Lemma flip_twice_world l w (b : bool) :
  attrs w !! "time_flow" = Some (PBool b) ->
  mkWorld (<["time_flow" := PBool (negb (negb b))]>
             (fold_left rev_at l (<["time_flow" := PBool (negb b)]> (fold_left rev_at l (attrs w)))))
          (log w) = w.
Proof.
  intros Htf. destruct w as [m lg]. cbn [attrs log] in *. f_equal. apply map_eq. intros k.
  destruct (decide (k = "time_flow"%string)) as [->|Hne].
  - rewrite lookup_insert_eq, Htf, negb_involutive. done.
  - rewrite lookup_insert_ne by congruence. rewrite fold_rev_at_lookup.
    rewrite lookup_insert_ne by congruence. rewrite fold_rev_at_lookup.
    apply iter_involution, rev_opt_involutive.
Qed.

Lemma timeFlip_twice l w w1 u (b : bool) :
  attrs w !! "time_vary" = Some (PList l) -> ~ In (PStr "time_vary") l ->
  attrs w !! "time_flow" = Some (PBool b) ->
  timeFlip w = Ok (u, w1) ->
  timeFlip w1 = Ok (tt, w) /\ attrs w1 !! "time_flow" = Some (PBool (negb b)).
Proof.
  intros Htv Hself Htf H.
  destruct (timeFlip_sound l w w1 u b Htv Hself Htf H) as [Hall ->].
  assert (Htf1 : attrs (mkWorld (<["time_flow" := PBool (negb b)]> (fold_left rev_at l (attrs w)))
                                (log w)) !! "time_flow" = Some (PBool (negb b)))
    by apply lookup_insert_eq.
  split; [|exact Htf1].
  rewrite (timeFlip_complete l _ (negb b)); [cbn [attrs log]; rewrite flip_twice_world by done; done| |done|done|].
  - cbn [attrs]. rewrite lookup_insert_ne by done.
    rewrite fold_rev_at_lookup, occurrences_absent by done. exact Htv.
  - eapply Forall_impl; [exact Hall|]. intros v (n & l0 & -> & Hid & Hn).
    assert (Hne : n <> "time_flow"%string) by (intros ->; congruence).
    destruct (iter_rev_opt_list (occurrences n l) l0) as [l' Hl'].
    exists n, l'. split; [done|split; [done|]]. cbn [attrs].
    rewrite lookup_insert_ne by congruence. rewrite fold_rev_at_lookup, Hn. exact Hl'.
Qed.

Lemma timeRev_eq w (b : bool) :
  attrs w !! "time_flow" = Some (PBool b) -> timeRev w = if b then timeFlip w else Ok (tt, w).
Proof. intros Htf. unfold timeRev, bind, get_attr. rewrite Htf. destruct b; reflexivity. Qed.

Lemma timeFwd_eq w (b : bool) :
  attrs w !! "time_flow" = Some (PBool b) -> timeFwd w = if b then Ok (tt, w) else timeFlip w.
Proof. intros Htf. unfold timeFwd, bind, get_attr. rewrite Htf. destruct b; reflexivity. Qed.

End Flip_round_trip.

Section Claim_direction.
Context {Obj Fn : Type} {RT : Runtime Obj Fn}.

(** C6 (amended): for an agent whose [time_flow] is a bool [b] and whose
    [time_vary] list does not name itself, let [w1] be the agent after one
    [timeFlip()].  Each forcing call flips at most once: [timeRev()] then
    [timeFwd()] restores the agent exactly when [b] is true and otherwise
    ends in [w1] (one flip, time flowing forward); [timeFwd()] then
    [timeRev()] restores it exactly when [b] is false and otherwise ends in
    [w1]. *)
Theorem C6_round_trip_depends_on_start (w w1 : world Obj Fn) (l : list (pyval Obj Fn))
    (b : bool) (u : unit) :
  attrs w !! "time_flow" = Some (PBool b) ->
  attrs w !! "time_vary" = Some (PList l) -> ~ In (PStr "time_vary") l ->
  timeFlip w = Ok (u, w1) ->
  (timeRev ;;; timeFwd) w = (if b then Ok (tt, w) else Ok (tt, w1)) /\
  (timeFwd ;;; timeRev) w = (if b then Ok (tt, w1) else Ok (tt, w)).
Proof.
  intros Htf Htv Hself H. destruct u.
  destruct (timeFlip_twice l w w1 tt b Htv Hself Htf H) as [Hback Htf1].
  unfold bind. rewrite (timeRev_eq w b Htf), (timeFwd_eq w b Htf).
  destruct b; simpl in Htf1 |- *; rewrite ?H.
  - split; [rewrite (timeFwd_eq w1 false Htf1); exact Hback
           |rewrite (timeRev_eq w true Htf); exact H].
  - split; [rewrite (timeFwd_eq w false Htf); exact H
           |rewrite (timeRev_eq w1 true Htf1); exact Hback].
Qed.

End Claim_direction.

Section Witness_direction.
Import Fixture.

(** C6 (counterexample): from a backward agent with [x = [1, 2]],
    [timeRev()] then [timeFwd()] leaves [x = [2, 1]] and [time_flow] true. *)
Lemma C6_rev_then_fwd_from_backward_flips_once :
  match (timeRev ;;; timeFwd) two_period_backward with
  | Ok (_, w') =>
      attrs two_period_backward !! "x"%string = Some (ints [1; 2]) /\
      attrs w' !! "x"%string = Some (ints [2; 1]) /\
      attrs two_period_backward !! "time_flow"%string = Some (PBool false) /\
      attrs w' !! "time_flow"%string = Some (PBool true)
  | Err _ => False
  end.
Proof. vm_compute. repeat split. Qed.

Lemma C6_witness :
  (attrs two_period_backward !! "time_flow"%string = Some (PBool false) /\
   attrs two_period_backward !! "time_vary"%string = Some (PList [PStr "x"%string]) /\
   ~ In (PStr "time_vary"%string) [PStr "x"%string : pyval unit fn] /\
   timeFlip two_period_backward = Ok (tt, flipped two_period_backward)) /\
  ((timeRev ;;; timeFwd) two_period_backward = Ok (tt, flipped two_period_backward) /\
   (timeFwd ;;; timeRev) two_period_backward = Ok (tt, two_period_backward)).
Proof.
  assert (H1 : attrs two_period_backward !! "time_flow"%string = Some (PBool false))
    by reflexivity.
  assert (H2 : attrs two_period_backward !! "time_vary"%string = Some (PList [PStr "x"%string]))
    by reflexivity.
  assert (H3 : ~ In (PStr "time_vary"%string) [PStr "x"%string : pyval unit fn])
    by (intros [H|[]]; discriminate H).
  assert (H4 : timeFlip two_period_backward = Ok (tt, flipped two_period_backward))
    by (vm_compute; reflexivity).
  split; [split; [exact H1|split; [exact H2|split; [exact H3|exact H4]]]|].
  exact (C6_round_trip_depends_on_start two_period_backward (flipped two_period_backward)
           [PStr "x"%string] false tt H1 H2 H3 H4).
Defined.

End Witness_direction.

Section Cycle_facts.
Context {Obj Fn : Type} {RT : Runtime Obj Fn}.
Implicit Types (w : world Obj Fn) (A sd : gmap string (pyval Obj Fn)).

Lemma attr_expr_inv n w w' v :
  attr_expr n w = Ok (v, w') -> w' = w /\ attrs w !! n = Some v.
Proof. unfold attr_expr. destruct (is_identifier n); [apply get_attr_inv|discriminate]. Qed.

Lemma get_names_inv a w w' tv : get_names a w = Ok (tv, w') -> w' = w.
Proof.
  unfold get_names. intros H. bind_step H. apply get_attr_inv in Hm as [-> _].
  destruct x; try discriminate. apply lift_inv in H as [-> _]. done.
Qed.

Lemma period_count_inv w w' T : period_count w = Ok (T, w') -> w' = w.
Proof.
  unfold period_count. intros H. bind_step H. apply get_names_inv in Hm as ->.
  destruct x as [|name ?].
  - apply ret_inv in H as [-> _]. done.
  - bind_step H. apply attr_expr_inv in Hm as [-> _].
    destruct x0; try discriminate. apply ret_inv in H as [-> _]. done.
Qed.

Lemma add_inv_sound inv d w w' d' :
  add_inv inv d w = Ok (d', w') ->
  w' = w /\ forall n, d' !! n = if existsb (String.eqb n) inv then attrs w !! n else d !! n.
Proof.
  revert d. induction inv as [|n0 inv IH]; intros d H; simpl in H.
  - apply ret_inv in H as [-> ->]. done.
  - bind_step H. apply attr_expr_inv in Hm as [-> Hn0].
    apply IH in H as [-> Hd]. split; [done|]. intros n. rewrite Hd. simpl.
    destruct (String.eqb_spec n n0) as [->|Hne]; simpl.
    + destruct (existsb (String.eqb n0) inv); [done|]. rewrite lookup_insert_eq. done.
    + rewrite lookup_insert_ne by congruence. done.
Qed.

Lemma foldl_none_lookup (tv : list string) (d : gmap string (pyval Obj Fn)) n :
  foldl (fun (d : gmap string (pyval Obj Fn)) n => <[n:=@PNone Obj Fn]> d) d tv !! n =
    if existsb (String.eqb n) tv then Some PNone else d !! n.
Proof.
  revert d. induction tv as [|n0 tv IH]; intros d; [done|]. simpl. rewrite IH.
  destruct (String.eqb_spec n n0) as [->|Hne]; simpl.
  - destruct (existsb (String.eqb n0) tv); [done|]. apply lookup_insert_eq.
  - rewrite lookup_insert_ne by congruence. done.
Qed.

Lemma build_solve_dict_sound inv tv w w' sd :
  build_solve_dict inv tv w = Ok (sd, w') -> w' = w /\ dict_ok (attrs w) tv inv sd.
Proof.
  unfold build_solve_dict. intros H. bind_step H. apply add_inv_sound in Hm as [-> Hd].
  apply ret_inv in H as [-> ->]. split; [done|]. intros n _ Hn.
  rewrite foldl_none_lookup, Hn, Hd. rewrite lookup_empty. done.
Qed.

Lemma update_tv_sound tv args t sd w w' sd' :
  update_tv tv args t sd w = Ok (sd', w') ->
  w' = w /\
  forall n, (existsb (String.eqb n) tv && existsb (String.eqb n) args = true ->
             exists v x, attrs w !! n = Some v /\ py_index v t = Ok x /\ sd' !! n = Some x) /\
            (existsb (String.eqb n) tv && existsb (String.eqb n) args = false -> sd' !! n = sd !! n).
Proof.
  revert sd. induction tv as [|n0 tv IH]; intros sd H; simpl in H.
  - apply ret_inv in H as [-> ->]. split; [done|]. intros n. split; [discriminate|done].
  - destruct (existsb (String.eqb n0) args) eqn:Ha.
    + bind_step H. apply attr_expr_inv in Hm as [-> Hv].
      bind_step H. apply lift_inv in Hm as [-> Hx].
      apply IH in H as [-> Hs]. split; [done|]. intros n. specialize (Hs n) as [Hs1 Hs2].
      simpl. destruct (String.eqb_spec n n0) as [->|Hne]; simpl.
      * rewrite Ha. split; [|discriminate]. intros _.
        destruct (existsb (String.eqb n0) tv) eqn:Ht; [apply Hs1; rewrite Ha; done|].
        exists x, x0. rewrite Hs2 by (rewrite Ha; done). rewrite lookup_insert_eq. done.
      * split; [exact Hs1|]. intros Hf. rewrite Hs2 by exact Hf.
        rewrite lookup_insert_ne by congruence. done.
    + apply IH in H as [-> Hs]. split; [done|]. intros n. specialize (Hs n) as [Hs1 Hs2].
      simpl. destruct (String.eqb_spec n n0) as [->|Hne]; simpl.
      * rewrite Ha. split; [discriminate|]. intros _. apply Hs2.
        rewrite Ha, andb_false_r. done.
      * split; [exact Hs1|exact Hs2].
Qed.

Lemma select_args_sound (d : gmap string (pyval Obj Fn)) args kw :
  select_args d args = Ok kw -> Forall2 (fun n p => p.1 = n /\ d !! n = Some p.2) args kw.
Proof.
  revert kw. induction args as [|n args IH]; intros kw H; simpl in H.
  - inversion H; subst. constructor.
  - destruct (d !! n) as [v|] eqn:E; [|discriminate].
    destruct (select_args d args) as [r|e] eqn:Er; simpl in H; [|discriminate].
    inversion H; subst. constructor; [done|]. apply IH. done.
Qed.

Lemma existsb_eqb_In n (l : list string) : In n l -> existsb (String.eqb n) l = true.
Proof.
  intros Hin. apply existsb_exists. exists n. split; [done|]. apply String.eqb_refl.
Qed.

Lemma Forall2_impl_in {X Y : Type} (P Q : X -> Y -> Prop) l k :
  (forall x y, In x l -> P x y -> Q x y) -> Forall2 P l k -> Forall2 Q l k.
Proof.
  intros HPQ H. induction H as [|x y l k Hxy Hlk IH]; constructor.
  - apply HPQ; [left; done|done].
  - apply IH. intros x' y' Hin. apply HPQ. right. done.
Qed.

Lemma next_solution_at_shift (tp1 x : pyval Obj Fn) rest j :
  next_solution_at tp1 (x :: rest) (S j) = next_solution_at x rest j.
Proof. destruct j; reflexivity. Qed.

(** The argument dictionary of one period holds what the claims expect. *)
Lemma period_args_expected A tv inv t tp1 sd sd1 w args n v :
  attrs w = A -> dict_ok A tv inv sd ->
  (forall n, (existsb (String.eqb n) tv && existsb (String.eqb n) args = true ->
             exists v x, attrs w !! n = Some v /\ py_index v t = Ok x /\ sd1 !! n = Some x) /\
            (existsb (String.eqb n) tv && existsb (String.eqb n) args = false -> sd1 !! n = sd !! n)) ->
  In n args -> <["solution_tp1":=tp1]> sd1 !! n = Some v ->
  expected_arg A tv inv t tp1 n = Some v.
Proof.
  intros HA Hd Hu Hin Hsd. unfold expected_arg.
  destruct (String.eqb_spec n "solution_tp1") as [->|Hne].
  - rewrite lookup_insert_eq in Hsd. congruence.
  - rewrite lookup_insert_ne in Hsd by congruence.
    destruct (Hu n) as [Hu1 Hu2].
    destruct (existsb (String.eqb n) tv) eqn:Htv.
    + destruct Hu1 as (v0 & x & Hv0 & Hx & Hs1).
      { rewrite (existsb_eqb_In n args Hin). done. }
      rewrite <- HA, Hv0, Hx. congruence.
    + rewrite Hu2 in Hsd by done. rewrite (Hd n Hne Htv) in Hsd.
      destruct (existsb (String.eqb n) inv); [done|discriminate].
Qed.

(** The period loop: one solver call per period, each with the arguments
    the claims describe, and nothing else changed. *)
Lemma periods_sound A tv inv k t same sd tp1 w w' sols :
  attrs w = A -> dict_ok A tv inv sd ->
  (forall f, same = Some f -> forall t', period_solver A tv t' = Some f) ->
  (same = None -> existsb (String.eqb "solveAPeriod") tv = true) ->
  periods k t same tv sd tp1 w = Ok (sols, w') ->
  attrs w' = A /\ length sols = k /\
  exists calls, log w' = log w ++ calls /\ length calls = k /\
  forall j e, calls !! j = Some e ->
    exists f kw sp, e = ECall f kw /\ period_solver A tv (t + j) = Some f /\
      next_solution_at tp1 sols j = Some sp /\
      Forall2 (fun n p => p.1 = n /\ expected_arg A tv inv (t + j) sp n = Some p.2)
        (getArgNames f) kw.
Proof.
  revert t sd tp1 w sols. induction k as [|k IH]; intros t sd tp1 w sols HA Hd Hsame Hnone H.
  - cbn [periods] in H. apply ret_inv in H as [-> ->].
    split; [done|]. split; [done|]. exists []. rewrite app_nil_r.
    split; [done|]. split; [done|]. intros j e He. rewrite lookup_nil in He. discriminate.
  - cbn [periods] in H. bind_step H.
    assert (Hf : w0 = w /\ period_solver A tv t = Some x).
    { destruct same as [f0|].
      - apply ret_inv in Hm as [-> ->]. split; [done|]. apply (Hsame f0 eq_refl).
      - bind_step Hm. apply get_attr_inv in Hm0 as [-> Hsv].
        apply lift_inv in Hm as [-> Hr]. split; [done|].
        unfold period_solver. rewrite <- HA, Hsv, (Hnone eq_refl).
        destruct (py_index x0 t) as [p|e]; simpl in Hr; [|discriminate].
        destruct p; simpl in Hr; try discriminate. inversion Hr. done. }
    destruct Hf as [-> Hpf]. clear Hm. cbv zeta in H.
    bind_step H. apply update_tv_sound in Hm as [-> Hu].
    bind_step H. apply lift_inv in Hm as [-> Hsel]. apply select_args_sound in Hsel.
    bind_step H. unfold emit in Hm. injection Hm as _ Hw. rewrite <- Hw in H. clear Hw.
    bind_step H. apply lift_inv in Hm as [-> Hcall].
    bind_step H. apply ret_inv in H as [-> ->].
    apply IH in Hm as (HA' & Hlen & calls & Hlog & Hlc & Hcalls);
      [| cbn [attrs]; done | | done | done].
    2:{ intros n Hn Htv. rewrite lookup_insert_ne by congruence.
        destruct (Hu n) as [_ Hu2]. rewrite Hu2 by (rewrite Htv; done). apply Hd; done. }
    split; [done|]. split; [cbn; congruence|].
    exists (ECall x x1 :: calls). split.
    { rewrite Hlog. cbn [log]. rewrite <- app_assoc. done. }
    split; [cbn; congruence|].
    intros [|j] e He.
    + cbn in He. inversion He; subst. exists x, x1, tp1. rewrite Nat.add_0_r.
      split; [done|]. split; [done|]. split; [done|].
      eapply Forall2_impl_in; [|exact Hsel]. intros n p Hin [Hp1 Hp2]. split; [done|].
      eapply period_args_expected with (w := w) (sd := sd); eauto.
    + cbn in He. destruct (Hcalls j e He) as (f & kw & sp & Hef & Hps & Hsp & Hargs).
      exists f, kw, sp. replace (t + S j)%nat with (S t + j)%nat by lia.
      rewrite next_solution_at_shift. auto.
Qed.

Lemma solveACycle_sound sl w sols w' :
  solveACycle sl w = Ok (sols, w') ->
  exists T tv inv calls,
    period_count w = Ok (T, w) /\ get_names "time_vary" w = Ok (tv, w) /\
    get_names "time_inv" w = Ok (inv, w) /\
    attrs w' = attrs w /\ log w' = log w ++ calls /\ length sols = T /\ length calls = T /\
    forall t e, calls !! t = Some e ->
      exists f kw sp, e = ECall f kw /\ period_solver (attrs w) tv t = Some f /\
        next_solution_at sl sols t = Some sp /\
        Forall2 (fun n p => p.1 = n /\ expected_arg (attrs w) tv inv t sp n = Some p.2)
          (getArgNames f) kw.
Proof.
  unfold solveACycle. intros H.
  bind_step H. pose proof Hm as HT. apply period_count_inv in Hm. subst w0.
  bind_step H. pose proof Hm as Htv. apply get_names_inv in Hm. subst w0.
  bind_step H.
  assert (Hs : w0 = w /\
     (forall f, x1 = Some f -> forall t', period_solver (attrs w) x0 t' = Some f) /\
     (x1 = None -> existsb (String.eqb "solveAPeriod") x0 = true)).
  { destruct (existsb (String.eqb "solveAPeriod") x0) eqn:Es; cbn in Hm.
    - apply ret_inv in Hm as [-> ->]. split; [done|]. split; [discriminate|done].
    - bind_step Hm. apply get_attr_inv in Hm0 as [-> Hsv].
      bind_step Hm. apply lift_inv in Hm0 as [-> Hf].
      apply ret_inv in Hm as [-> ->]. split; [done|]. split; [|discriminate].
      intros f [= <-] t'. unfold period_solver. rewrite Hsv, Es.
      destruct x2; try discriminate. inversion Hf. done. }
  destruct Hs as (-> & Hsame & Hnone). clear Hm.
  bind_step H. pose proof Hm as Hinv. apply get_names_inv in Hm. subst w0.
  bind_step H. apply build_solve_dict_sound in Hm as [-> Hd].
  apply (periods_sound (attrs w) x0 x2) in H as (HA & Hlen & calls & Hlog & Hlc & Hcalls); auto.
  exists x, x0, x2, calls. repeat split; auto.
Qed.

Lemma count_cycles_app (l1 l2 : list (event Obj Fn)) :
  count_cycles (l1 ++ l2) = (count_cycles l1 + count_cycles l2)%nat.
Proof. induction l1 as [|[] l1 IH]; simpl; lia. Qed.

Lemma count_cycles_calls (l : list (event Obj Fn)) :
  (forall j e, l !! j = Some e -> exists f kw, e = ECall f kw) -> count_cycles l = O.
Proof.
  induction l as [|e l IH]; intros H; [done|].
  destruct (H 0%nat e eq_refl) as (f & kw & ->). simpl. apply IH.
  intros j e' He. apply (H (S j)). done.
Qed.

(** What the driver loop needs of one cycle. *)
Lemma solveACycle_shape sl w sols w' :
  solveACycle sl w = Ok (sols, w') ->
  exists T calls, period_count w = Ok (T, w) /\ attrs w' = attrs w /\
    log w' = log w ++ calls /\ count_cycles calls = O /\ length sols = T.
Proof.
  intros H. apply solveACycle_sound in H
    as (T & tv & inv & calls & HT & _ & _ & HA & Hlog & Hlen & _ & Hcalls).
  exists T, calls. repeat split; auto. apply count_cycles_calls.
  intros j e He. destruct (Hcalls j e He) as (f & kw & _ & -> & _). eauto.
Qed.

Lemma get_names_attrs a w1 w2 tv w' :
  attrs w1 = attrs w2 -> get_names a w1 = Ok (tv, w') -> get_names a w2 = Ok (tv, w2).
Proof.
  unfold get_names, bind, get_attr, lift, raise. intros Ha. rewrite Ha.
  destruct (attrs w2 !! a) as [[]|]; try discriminate.
  destruct (as_names l); intros H; inversion H; done.
Qed.

Lemma period_count_attrs w1 w2 T :
  attrs w1 = attrs w2 -> period_count w1 = Ok (T, w1) -> period_count w2 = Ok (T, w2).
Proof.
  intros Ha H. unfold period_count in *. bind_step H.
  pose proof (get_names_attrs _ _ _ _ _ Ha Hm) as Hg. apply get_names_inv in Hm. subst w.
  unfold bind at 1. rewrite Hg. destruct x as [|name rest].
  - apply ret_inv in H as [_ ->]. done.
  - bind_step H. unfold attr_expr in Hm.
    destruct (is_identifier name) eqn:Ei; [|discriminate].
    apply get_attr_inv in Hm as [-> Hv]. destruct x; try discriminate.
    apply ret_inv in H as [_ ->]. unfold bind, attr_expr, get_attr.
    rewrite Ei, <- Ha, Hv. done.
Qed.

Lemma isSameThing_inv a b w w' x : isSameThing a b w = Ok (x, w') -> w' = w.
Proof.
  unfold isSameThing. intros H. bind_step H. apply lift_inv in Hm as [-> _].
  bind_step H. apply get_attr_inv in Hm as [-> _].
  destruct x1; try discriminate; apply ret_inv in H as [-> _]; done.
Qed.

Lemma cycle_loop_attrs fuel ih cl cc sl acc w res w' :
  cycle_loop fuel ih cl cc sl acc w = Ok (res, w') -> attrs w' = attrs w.
Proof.
  revert cl cc sl acc w. induction fuel as [|fuel IH]; intros cl cc sl acc w H;
    cbn [cycle_loop] in H; [discriminate|].
  bind_step H. apply solveACycle_shape in Hm as (T & calls & _ & HA & _).
  bind_step H. unfold emit in Hm. injection Hm as _ Hw. rewrite <- Hw in H. clear Hw.
  bind_step H. apply lift_inv in Hm as [-> _].
  bind_step H.
  match type of Hm with _ ?wa = Ok (_, ?wb) => assert (Hg : wb = wa) end.
  { destruct ih; [destruct (Z.gtb cc 0)|]; cbv beta iota in Hm.
    - bind_step Hm. apply isSameThing_inv in Hm0 as ->. apply ret_inv in Hm as [-> _]. done.
    - apply ret_inv in Hm as [-> _]. done.
    - apply ret_inv in Hm as [-> _]. done. }
  rewrite Hg in H. destruct x2 as [go cl']. destruct go.
  - apply IH in H. rewrite H. cbn [attrs]. done.
  - apply ret_inv in H as [-> _]. cbn [attrs]. done.
Qed.

Lemma cycle_loop_finite T n fuel cc sl acc w res w' :
  period_count w = Ok (T, w) -> (n < fuel)%nat ->
  cycle_loop fuel false (Z.of_nat (S n)) cc sl acc w = Ok (res, w') ->
  attrs w' = attrs w /\ length res.1 = (length acc + S n * T)%nat /\
  exists evs, log w' = log w ++ evs /\ count_cycles evs = S n.
Proof.
  revert fuel cc sl acc w. induction n as [|n IH]; intros fuel cc sl acc w HT Hf H;
    (destruct fuel as [|fuel]; [lia|]); cbn [cycle_loop] in H.
  - bind_step H. apply solveACycle_shape in Hm as (T' & calls & HT' & HA & Hlog & Hc & Hlen).
    rewrite HT in HT'. injection HT' as <-.
    bind_step H. unfold emit in Hm. injection Hm as _ Hw. rewrite <- Hw in H. clear Hw.
    bind_step H. apply lift_inv in Hm as [-> _].
    bind_step H. apply ret_inv in Hm as [-> ->]. cbn in H.
    apply ret_inv in H as [-> ->]. cbn [attrs log fst].
    split; [done|]. split; [rewrite length_app; lia|].
    exists (calls ++ [ECycle x]). rewrite Hlog, <- app_assoc. split; [done|].
    rewrite count_cycles_app, Hc. done.
  - bind_step H. apply solveACycle_shape in Hm as (T' & calls & HT' & HA & Hlog & Hc & Hlen).
    rewrite HT in HT'. injection HT' as <-.
    bind_step H. unfold emit in Hm. injection Hm as _ Hw. rewrite <- Hw in H. clear Hw.
    bind_step H. apply lift_inv in Hm as [-> _].
    bind_step H. apply ret_inv in Hm as [-> ->].
    replace (Z.of_nat (S (S n)) - 1) with (Z.of_nat (S n)) in H by lia.
    assert (Hg : Z.gtb (Z.of_nat (S n)) 0 = true) by (apply Z.gtb_lt; lia).
    cbn beta iota in H. rewrite Hg in H.
    apply IH in H as (HA' & Hlen' & evs & Hlog' & Hc'); [| |lia].
    2:{ apply (period_count_attrs w); [cbn [attrs]; done|exact HT]. }
    cbn [attrs log] in HA', Hlog'. split; [congruence|].
    split; [rewrite Hlen', length_app; lia|].
    exists (calls ++ [ECycle x] ++ evs). rewrite Hlog', Hlog, <- !app_assoc. split; [done|].
    rewrite !count_cycles_app, Hc, Hc'. done.
Qed.

Lemma cycle_loop_infinite T fuel cl cc sl acc w res w' :
  period_count w = Ok (T, w) ->
  cycle_loop fuel true cl cc sl acc w = Ok (res, w') ->
  attrs w' = attrs w /\ length res.2 = T /\
  exists evs, log w' = log w ++ evs ++ [ECycle res.2] /\
    (cc = 0 -> (1 <= count_cycles evs)%nat).
Proof.
  revert cl cc sl w res w'. induction fuel as [|fuel IH]; intros cl cc sl w res w' HT H;
    cbn [cycle_loop] in H; [discriminate|].
  bind_step H. apply solveACycle_shape in Hm as (T' & calls & HT' & HA & Hlog & Hc & Hlen).
  rewrite HT in HT'. injection HT' as <-.
  bind_step H. unfold emit in Hm. injection Hm as _ Hw. rewrite <- Hw in H. clear Hw.
  bind_step H. apply lift_inv in Hm as [-> _].
  bind_step H.
  assert (Hrec : forall cl' sn ww2 res' ww3,
            attrs ww2 = attrs w0 -> log ww2 = log w0 ++ [ECycle x] ->
            cycle_loop fuel true cl' (cc + 1) sn acc ww2 = Ok (res', ww3) ->
            attrs ww3 = attrs w /\ length res'.2 = T /\
            exists evs, log ww3 = log w ++ evs ++ [ECycle res'.2] /\
              (cc = 0 -> (1 <= count_cycles evs)%nat)).
  { intros cl' sn ww2 res' ww3 Ha2 Hl2 Hr.
    apply IH in Hr as (HA' & Hlen' & evs & Hlog' & _).
    2:{ apply (period_count_attrs w); [congruence|exact HT]. }
    split; [congruence|]. split; [done|].
    exists (calls ++ [ECycle x] ++ evs). rewrite Hlog', Hl2, Hlog, <- !app_assoc.
    split; [done|]. intros _. rewrite !count_cycles_app. simpl. lia. }
  destruct (Z.gtb cc 0) eqn:Hcc; cbv beta iota in Hm.
  - bind_step Hm. apply isSameThing_inv in Hm0 as ->. apply ret_inv in Hm as [-> ->].
    cbn beta iota in H. match type of H with context [negb ?b && ?c] => destruct (negb b && c) end.
    + eapply Hrec; [| |exact H]; done.
    + apply ret_inv in H as [-> ->]. cbn [attrs log snd]. split; [done|]. split; [done|].
      exists calls. rewrite Hlog, <- app_assoc. split; [done|].
      intros ->. discriminate.
  - apply ret_inv in Hm as [-> ->]. cbn beta iota in H.
    eapply Hrec; [| |exact H]; done.
Qed.
End Cycle_facts.

Section Agent_facts.
Context {Obj Fn : Type} {RT : Runtime Obj Fn}.
Implicit Types (w : world Obj Fn).

Lemma reverse_list_attr_keeps n w w' u k :
  reverse_list_attr n w = Ok (u, w') -> not_list (attrs w !! k) -> attrs w' !! k = attrs w !! k.
Proof.
  unfold reverse_list_attr. intros H Hk. bind_step H. apply get_attr_inv in Hm as [-> Hn].
  destruct x; try discriminate. unfold set_attr in H. injection H as _ <-. cbn [attrs].
  destruct (decide (n = k)) as [<-|Hne].
  - rewrite Hn in Hk. destruct Hk.
  - rewrite lookup_insert_ne; done.
Qed.

Lemma flip_loop_keeps fuel i w w' u k :
  flip_loop fuel i w = Ok (u, w') -> not_list (attrs w !! k) -> attrs w' !! k = attrs w !! k.
Proof.
  revert i w. induction fuel as [|fuel IH]; intros i w H Hk; cbn [flip_loop] in H.
  - apply ret_inv in H as [-> _]. done.
  - bind_step H. apply get_attr_inv in Hm as [-> _].
    destruct x as [| | | | |l| |]; try discriminate.
    destruct (nth_error l i) as [[| | | |name| | |]|]; try discriminate.
    + bind_step H. unfold exec_reverse in Hm. destruct (is_identifier name); [|discriminate].
      pose proof (reverse_list_attr_keeps _ _ _ _ k Hm Hk) as E.
      rewrite (IH _ _ H) by (rewrite E; done). done.
    + apply ret_inv in H as [-> _]. done.
Qed.

(** [timeRev()] keeps the log and every attribute other than [time_flow]
    that is not a list, keeps the truth value of every attribute other than
    [time_flow], and leaves [time_flow] false. *)
Lemma timeRev_facts w u ab :
  timeRev w = Ok (u, ab) ->
  log ab = log w /\
  (forall k, k <> "time_flow"%string -> not_list (attrs w !! k) -> attrs ab !! k = attrs w !! k) /\
  (forall k, k <> "time_flow"%string ->
     option_map truthy (attrs ab !! k) = option_map truthy (attrs w !! k)) /\
  exists tf0, attrs w !! "time_flow"%string = Some tf0 /\ (truthy tf0 = false -> ab = w) /\
    exists v, attrs ab !! "time_flow"%string = Some v /\ truthy v = false.
Proof.
  unfold timeRev. intros H. bind_step H. apply get_attr_inv in Hm as [-> Htf].
  destruct (truthy x) eqn:Tx; cbv beta iota in H.
  - unfold timeFlip in H. bind_step H. apply get_attr_inv in Hm as [-> _].
    destruct x0 as [| | | | |l| |]; try discriminate.
    bind_step H. pose proof (fun k => flip_loop_keeps _ _ _ _ _ k Hm) as Hk.
    apply flip_loop_truth in Hm as [Hl Ht].
    bind_step H. apply get_attr_inv in Hm as [-> Htf1].
    unfold set_attr in H. injection H as _ <-. cbn [attrs log].
    split; [done|]. split.
    { intros k Hne Hnl. rewrite lookup_insert_ne by congruence. apply Hk. done. }
    split.
    { intros k Hne. rewrite lookup_insert_ne by congruence. apply Ht. }
    exists x. split; [done|]. split; [congruence|].
    exists (PBool false). rewrite lookup_insert_eq.
    specialize (Ht "time_flow"%string). rewrite Htf1, Htf in Ht. injection Ht as Ht.
    rewrite Ht, Tx. done.
  - apply ret_inv in H as [-> _]. split; [done|]. split; [done|]. split; [done|].
    exists x. split; [done|]. split; [done|]. exists x. done.
Qed.

Ltac bind_as H x w Hm := apply bind_inv in H; destruct H as (x & w & Hm & H); cbn beta in H.

Lemma solveAgent_inv w sol w' :
  solveAgent w = Ok (sol, w') ->
  exists tf0 ab C pt st res wl,
    attrs w !! "time_flow"%string = Some tf0 /\ timeRev w = Ok (tt, ab) /\
    attrs ab !! "cycles"%string = Some (PInt C) /\
    attrs ab !! "pseudo_terminal"%string = Some pt /\
    cycle_loop (Z.to_nat C + Z.to_nat max_cycles + 1) (Z.eqb C 0) C 0 st
      (if truthy pt then [] else [st]) ab = Ok (res, wl) /\
    sol = (if Z.eqb C 0 then res.2 else res.1) /\ log w' = log wl /\
    exists v, attrs w' !! "time_flow"%string = Some v /\ truthy v = truthy tf0.
Proof.
  unfold solveAgent. intros H.
  bind_as H tf0 w1 Hm. apply get_attr_inv in Hm as [-> Htf].
  bind_as H u ab Hrev. destruct u.
  bind_as H c w1 Hm. apply get_attr_inv in Hm as [-> Hc].
  bind_as H C w1 Hm. apply lift_inv in Hm as [-> Hi].
  destruct c; try discriminate. injection Hi as ->. cbv zeta in H.
  bind_as H pt w1 Hm. apply get_attr_inv in Hm as [-> Hpt].
  bind_as H init w1 Hm.
  assert (Hinit : w1 = ab /\ forall st, attrs ab !! "solution_terminal"%string = Some st ->
                    init = (if truthy pt then [] else [st])).
  { destruct (truthy pt); cbn [negb] in Hm.
    - apply ret_inv in Hm as [-> ->]. done.
    - bind_as Hm st0 w2 Hm0. apply get_attr_inv in Hm0 as [-> Hst].
      apply ret_inv in Hm as [-> ->]. split; [done|].
      intros st Hst'. rewrite Hst in Hst'. injection Hst' as ->. done. }
  destruct Hinit as [-> Hinit]. clear Hm.
  bind_as H st w1 Hm. apply get_attr_inv in Hm as [-> Hst].
  rewrite (Hinit st Hst) in H.
  bind_as H res wl Hloop. pose proof (cycle_loop_attrs _ _ _ _ _ _ _ _ _ Hloop) as Hla.
  destruct res as [s1 s2]. cbv beta iota zeta in H.
  bind_as H u w2 Hfin.
  assert (Hf : log w2 = log wl /\
               exists v, attrs w2 !! "time_flow"%string = Some v /\ truthy v = truthy tf0).
  { destruct (truthy tf0) eqn:Tx; cbv beta iota in Hfin.
    - apply timeFwd_forward in Hfin as [Hl (v & Hv & Tv)]. split; [done|].
      exists v. rewrite Tv. done.
    - apply ret_inv in Hfin as [-> _]. split; [done|]. exists tf0. split; [|done].
      apply timeRev_facts in Hrev as (_ & _ & _ & tf1 & Htf1 & Hback & _).
      rewrite Htf in Htf1. injection Htf1 as <-. rewrite Hla, (Hback Tx). done. }
  apply ret_inv in H as [-> ->].
  exists tf0, ab, C, pt, st, (s1, s2), wl. destruct Hf as [Hl Hv].
  repeat split; auto.
Qed.

(** [solve()] runs [solveAgent] and stores its result, reversed when time
    flows forward afterwards. *)
Lemma solve_inv w u w' :
  solve w = Ok (u, w') ->
  exists sol w1 tf, solveAgent w = Ok (sol, w1) /\ log w' = log w1 /\
    attrs w1 !! "time_flow"%string = Some tf /\
    attrs w' !! "solution"%string = Some (PList (if truthy tf then rev sol else sol)).
Proof.
  unfold solve. intros H.
  bind_as H sol w1 Hsa.
  bind_as H u1 w2 Hset. unfold set_attr in Hset. injection Hset as _ <-.
  bind_as H tf w2 Hm. apply get_attr_inv in Hm as [-> Htf].
  cbn [attrs] in Htf. rewrite lookup_insert_ne in Htf by done.
  bind_as H u2 w2 Hrev.
  assert (Hs : log w2 = log w1 /\
               attrs w2 !! "solution"%string = Some (PList (if truthy tf then rev sol else sol))).
  { destruct (truthy tf); cbv beta iota in Hrev.
    - unfold reverse_list_attr in Hrev. bind_as Hrev v w3 Hm.
      apply get_attr_inv in Hm as [-> Hv]. cbn [attrs] in Hv. rewrite lookup_insert_eq in Hv.
      injection Hv as <-. unfold set_attr in Hrev. injection Hrev as _ <-. cbn [attrs log].
      rewrite lookup_insert_eq. done.
    - apply ret_inv in Hrev as [-> _]. cbn [attrs log]. rewrite lookup_insert_eq. done. }
  destruct Hs as [Hl Hsol]. clear Hrev.
  bind_as H tv w3 Hm. apply get_attr_inv in Hm as [-> _].
  exists sol, w1, tf. split; [done|].
  destruct tv as [| | | | |l| |]; try discriminate.
  destruct (existsb is_solution_str l).
  - apply ret_inv in H as [-> _]. done.
  - unfold set_attr in H. injection H as _ <-. cbn [attrs log].
    rewrite lookup_insert_ne by done. done.
Qed.

(** After [solve()], ['solution'] is among the names in [time_vary]. *)
Lemma solve_registers_solution w u w' :
  solve w = Ok (u, w') ->
  exists l, attrs w' !! "time_vary"%string = Some (PList l) /\ existsb is_solution_str l = true.
Proof.
  unfold solve. intros H.
  bind_as H sol w1 Hsa. bind_as H u1 w2 Hset. bind_as H tf w3 Htf. bind_as H u2 w4 Hrev.
  bind_as H tv w5 Hm. apply get_attr_inv in Hm as [-> Htv].
  destruct tv as [| | | | |l| |]; try discriminate.
  destruct (existsb is_solution_str l) eqn:E.
  - apply ret_inv in H as [-> _]. exists l. done.
  - unfold set_attr in H. injection H as _ <-. cbn [attrs]. rewrite lookup_insert_eq.
    exists (l ++ [PStr "solution"%string]). split; [done|].
    rewrite existsb_app. apply orb_true_intro. right. reflexivity.
Qed.

(** [solve()] stores [solveAgent]'s list reversed exactly when [time_flow]
    is true on entry. *)
Lemma solve_stores_in_direction w tf0 u w' :
  attrs w !! "time_flow"%string = Some tf0 -> solve w = Ok (u, w') ->
  exists sol w1, solveAgent w = Ok (sol, w1) /\
    attrs w' !! "solution"%string = Some (PList (if truthy tf0 then rev sol else sol)) /\
    exists l, attrs w' !! "time_vary"%string = Some (PList l) /\ existsb is_solution_str l = true.
Proof.
  intros Htf0 H. pose proof (solve_registers_solution _ _ _ H) as Hreg.
  apply solve_inv in H as (sol & w1 & tf & Hsa & _ & Htf & Hsol).
  exists sol, w1. split; [done|]. split; [|exact Hreg].
  pose proof Hsa as Hi.
  apply solveAgent_inv in Hi as (tf1 & _ & _ & _ & _ & _ & _ & Htf1 & _ & _ & _ & _ & _ & _ & v & Hv & Tv).
  rewrite Htf0 in Htf1. injection Htf1 as E1. subst tf1.
  rewrite Htf in Hv. injection Hv as E2. subst v.
  rewrite Tv in Hsol. exact Hsol.
Qed.

End Agent_facts.

Section Claim_solution_order.
Import Fixture.

(** C5 (amended): [solve()] stores the solutions in the agent's current time
    direction.  For every agent, a [solve()] that completes stores the list
    [solveAgent()] returns (computed backward) reversed when [time_flow] is
    true on entry and as it is when it is false, and ['solution'] is then
    listed in [time_vary].  On the three-period example this is [[3, 2, 1]]
    (forward chronological) when [time_flow] starts true and [[1, 2, 3]]
    (reverse chronological) when it starts false. *)
Theorem C5_solution_follows_time_flow :
  (forall (Obj Fn : Type) (RT : Runtime Obj Fn) (w : world Obj Fn) (tf0 : pyval Obj Fn)
      (u : unit) (w' : world Obj Fn),
    attrs w !! "time_flow"%string = Some tf0 -> solve w = Ok (u, w') ->
    exists sol w1, solveAgent w = Ok (sol, w1) /\
      attrs w' !! "solution"%string = Some (PList (if truthy tf0 then rev sol else sol)) /\
      exists l, attrs w' !! "time_vary"%string = Some (PList l) /\ existsb is_solution_str l = true) /\
  (forall tf : bool,
    solution_after (three_periods tf) =
      Some (if tf then ints [3; 2; 1] else ints [1; 2; 3])).
Proof.
  split.
  - intros Obj Fn RT w tf0 u w'. apply solve_stores_in_direction.
  - intros [|]; vm_compute; reflexivity.
Qed.

Lemma C5_witness :
  (attrs (three_periods true) !! "time_flow"%string = Some (PBool true) /\
   solve (three_periods true) = Ok (tt, after_solve (three_periods true))) /\
  exists sol w1, solveAgent (three_periods true) = Ok (sol, w1) /\
    attrs (after_solve (three_periods true)) !! "solution"%string =
      Some (PList (if truthy (PBool true : pyval unit fn) then rev sol else sol)) /\
    exists l, attrs (after_solve (three_periods true)) !! "time_vary"%string = Some (PList l) /\
      existsb is_solution_str l = true.
Proof.
  assert (H1 : attrs (three_periods true) !! "time_flow"%string = Some (PBool true))
    by reflexivity.
  assert (H2 : solve (three_periods true) = Ok (tt, after_solve (three_periods true)))
    by (vm_compute; reflexivity).
  split; [split; assumption|].
  exact (proj1 C5_solution_follows_time_flow unit fn runtime (three_periods true) (PBool true) tt
           (after_solve (three_periods true)) H1 H2).
Defined.

End Claim_solution_order.

Lemma Forall2_in_left {X Y : Type} (P : X -> Y -> Prop) l k x :
  Forall2 P l k -> In x l -> exists y, P x y.
Proof.
  intros H. induction H as [|a b l k Hab Hlk IH]; [intros []|].
  intros [->|Hin]; eauto.
Qed.

Lemma cycle_loop_period_count {Obj Fn} {RT : Runtime Obj Fn} fuel ih cl cc sl acc
    (w : world Obj Fn) res w' :
  cycle_loop fuel ih cl cc sl acc w = Ok (res, w') -> exists T, period_count w = Ok (T, w).
Proof.
  destruct fuel as [|fuel]; cbn [cycle_loop]; [discriminate|]. intros H.
  bind_step H. apply solveACycle_shape in Hm as (T & _ & HT & _). eauto.
Qed.

Section Claim_horizon.
Context {Obj Fn : Type} {RT : Runtime Obj Fn}.

(** C1: for an agent with [cycles = C > 0] whose period count after
    [timeRev()] is [T], a [solve()] that completes stores a solution list of
    length [C*T + 1] when [pseudo_terminal] is false (the terminal solution
    is included) and [C*T] otherwise, and the cycle loop runs exactly [C]
    times. *)
Theorem C1_finite_horizon_length (w : world Obj Fn) (C : Z) (pt : pyval Obj Fn)
    (u : unit) (ab : world Obj Fn) (T : nat) (u' : unit) (w' : world Obj Fn) :
  attrs w !! "cycles"%string = Some (PInt C) -> (0 < C)%Z ->
  attrs w !! "pseudo_terminal"%string = Some pt ->
  timeRev w = Ok (u, ab) -> period_count ab = Ok (T, ab) ->
  solve w = Ok (u', w') ->
  exists l evs, attrs w' !! "solution"%string = Some (PList l) /\
    length l = (Z.to_nat C * T + (if truthy pt then 0 else 1))%nat /\
    log w' = log w ++ evs /\ count_cycles evs = Z.to_nat C.
Proof.
  intros Hc HC Hpt Hrev HT Hsolve.
  apply solve_inv in Hsolve as (sol & w1 & tf & Hsa & Hlog & _ & Hsol).
  apply solveAgent_inv in Hsa
    as (tf0 & ab' & C' & pt' & st & res & wl & _ & Hrev' & Hc' & Hpt' & Hloop & -> & Hlog' & _).
  rewrite Hrev in Hrev'. injection Hrev' as _ <-.
  apply timeRev_facts in Hrev as (Hlr & Hkeep & Htruth & _).
  rewrite Hkeep, Hc in Hc' by (done || (rewrite Hc; exact I)). injection Hc' as <-.
  pose proof (Htruth "pseudo_terminal"%string ltac:(done)) as Hp.
  rewrite Hpt, Hpt' in Hp. injection Hp as Hp.
  assert (Hc0 : Z.eqb C 0 = false) by (apply Z.eqb_neq; lia).
  rewrite Hc0 in Hloop, Hsol.
  set (n := pred (Z.to_nat C)).
  assert (HCn : C = Z.of_nat (S n)) by (subst n; lia).
  assert (Hn : (n < Z.to_nat C + Z.to_nat max_cycles + 1)%nat) by (subst n; lia).
  rewrite HCn in Hloop at 2.
  apply (cycle_loop_finite T n) in Hloop as (Hla & Hlen & evs & Hlogl & Hcount); [|done|done].
  exists (if truthy tf then rev res.1 else res.1), evs. split; [done|]. split.
  - destruct (truthy tf); rewrite ?length_rev, Hlen, Hp;
      destruct (truthy pt); cbn [length]; lia.
  - split; [congruence|]. rewrite Hcount. lia.
Qed.

(** C2: for an agent with [cycles = 0] whose period count after
    [timeRev()] is [T], a [solve()] that completes stores exactly the
    solutions of the last cycle run (the last [ECycle] of the log): [T] of
    them, in the agent's time direction, and no terminal entry, whatever
    [pseudo_terminal] is. *)
Theorem C2_infinite_horizon_last_cycle (w : world Obj Fn) (tf0 : pyval Obj Fn)
    (u : unit) (ab : world Obj Fn) (T : nat) (u' : unit) (w' : world Obj Fn) :
  attrs w !! "cycles"%string = Some (PInt 0) ->
  attrs w !! "time_flow"%string = Some tf0 ->
  timeRev w = Ok (u, ab) -> period_count ab = Ok (T, ab) ->
  solve w = Ok (u', w') ->
  exists sc evs, log w' = log w ++ evs ++ [ECycle sc] /\ length sc = T /\
    attrs w' !! "solution"%string = Some (PList (if truthy tf0 then rev sc else sc)).
Proof.
  intros Hc Htf Hrev HT Hsolve.
  apply solve_inv in Hsolve as (sol & w1 & tf & Hsa & Hlog & Htf1 & Hsol).
  apply solveAgent_inv in Hsa
    as (tf0' & ab' & C' & pt' & st & res & wl & Htf0 & Hrev' & Hc' & _ & Hloop & -> & Hlog'
        & v & Hv & Tv).
  rewrite Hrev in Hrev'. injection Hrev' as _ <-.
  rewrite Htf in Htf0. injection Htf0 as <-. rewrite Htf1 in Hv. injection Hv as <-.
  apply timeRev_facts in Hrev as (Hlr & Hkeep & _ & _).
  rewrite Hkeep, Hc in Hc' by (done || (rewrite Hc; exact I)). injection Hc' as <-.
  cbn [Z.eqb] in Hloop |- *.
  apply (cycle_loop_infinite T) in Hloop as (Hla & Hlen & evs & Hlogl & _); [|done].
  exists res.2, evs. split; [congruence|]. split; [done|]. rewrite Hsol, Tv. done.
Qed.

(** C7: for an agent with [cycles = 0], a [solveAgent] that completes has
    run at least two cycles: the first cycle never tests convergence. *)
Theorem C7_infinite_horizon_two_cycles (w : world Obj Fn) (sol : list (pyval Obj Fn))
    (w' : world Obj Fn) :
  attrs w !! "cycles"%string = Some (PInt 0) ->
  solveAgent w = Ok (sol, w') ->
  exists evs, log w' = log w ++ evs /\ (2 <= count_cycles evs)%nat.
Proof.
  intros Hc Hsa.
  apply solveAgent_inv in Hsa
    as (tf0 & ab & C & pt & st & res & wl & _ & Hrev & Hc' & _ & Hloop & _ & Hlog & _).
  apply timeRev_facts in Hrev as (Hlr & Hkeep & _ & _).
  rewrite Hkeep, Hc in Hc' by (done || (rewrite Hc; exact I)). injection Hc' as <-.
  cbn [Z.eqb] in Hloop.
  destruct (cycle_loop_period_count _ _ _ _ _ _ _ _ _ Hloop) as [T HT].
  apply (cycle_loop_infinite T) in Hloop as (_ & _ & evs & Hlogl & Hcount); [|done].
  exists (evs ++ [ECycle res.2]). split; [congruence|].
  rewrite count_cycles_app. cbn. specialize (Hcount eq_refl). lia.
Qed.
End Claim_horizon.

Section Claim_args.
Context {Obj Fn : Type} {RT : Runtime Obj Fn}.

(** C3: in a cycle, the solver of every period [t] is called (an [ECall]
    of the log) with exactly the arguments [getArgNames] declares for it, in
    that order, each bound to its value: [solution_tp1] to the next-period
    solution (the seed for the first period), a time-varying name to the
    [t]-th element of its sequence, a time-invariant name to its value.
    Nothing else is passed.  And if some period's solver declares a name that
    is neither [solution_tp1] nor time-varying nor time-invariant, the cycle
    fails with an error. *)
Theorem C3_solver_gets_declared_args (sl : pyval Obj Fn) (w : world Obj Fn) :
  (forall sols w', solveACycle sl w = Ok (sols, w') ->
     exists tv inv calls,
       get_names "time_vary" w = Ok (tv, w) /\ get_names "time_inv" w = Ok (inv, w) /\
       log w' = log w ++ calls /\ length calls = length sols /\
       forall t e, calls !! t = Some e ->
         exists f kw sp, e = ECall f kw /\ period_solver (attrs w) tv t = Some f /\
           next_solution_at sl sols t = Some sp /\
           Forall2 (fun n p => p.1 = n /\ expected_arg (attrs w) tv inv t sp n = Some p.2)
             (getArgNames f) kw) /\
  (forall T tv inv t f n,
     period_count w = Ok (T, w) -> get_names "time_vary" w = Ok (tv, w) ->
     get_names "time_inv" w = Ok (inv, w) -> (t < T)%nat ->
     period_solver (attrs w) tv t = Some f -> In n (getArgNames f) ->
     n <> "solution_tp1"%string -> existsb (String.eqb n) tv = false ->
     existsb (String.eqb n) inv = false ->
     exists e, solveACycle sl w = Err e).
Proof.
  split.
  - intros sols w' H.
    apply solveACycle_sound in H as (T & tv & inv & calls & _ & Htv & Hinv & _ & Hlog & Hls & Hlc & Hc).
    exists tv, inv, calls. repeat split; auto. congruence.
  - intros T tv inv t f n HT Htv Hinv Ht Hf Hn Hn1 Hn2 Hn3.
    destruct (solveACycle sl w) as [[sols w']|e] eqn:E; [exfalso|eauto].
    apply solveACycle_sound in E
      as (T' & tv' & inv' & calls & HT' & Htv' & Hinv' & _ & _ & _ & Hlc & Hc).
    rewrite HT in HT'. rewrite Htv in Htv'. rewrite Hinv in Hinv'.
    injection HT' as <-. injection Htv' as <-. injection Hinv' as <-.
    destruct (lookup_lt_is_Some_2 calls t) as [e He]; [lia|].
    destruct (Hc t e He) as (f' & kw & sp & -> & Hf' & _ & Hargs).
    rewrite Hf in Hf'. injection Hf' as <-.
    destruct (Forall2_in_left _ _ _ _ Hargs Hn) as (p & _ & Hp).
    unfold expected_arg in Hp. rewrite Hn2, Hn3 in Hp.
    destruct (String.eqb_spec n "solution_tp1"); [done|discriminate].
Qed.

End Claim_args.

Section Witness_horizon.
Import Fixture.

Lemma C1_witness :
  (attrs two_cycles_with_terminal !! "cycles"%string = Some (PInt 2) /\ (0 < 2)%Z /\
   attrs two_cycles_with_terminal !! "pseudo_terminal"%string = Some (PBool false) /\
   timeRev two_cycles_with_terminal = Ok (tt, after_timeRev two_cycles_with_terminal) /\
   period_count (after_timeRev two_cycles_with_terminal)
     = Ok (3%nat, after_timeRev two_cycles_with_terminal) /\
   solve two_cycles_with_terminal = Ok (tt, after_solve two_cycles_with_terminal)) /\
  (exists l evs, attrs (after_solve two_cycles_with_terminal) !! "solution"%string = Some (PList l) /\
     length l = 7%nat /\
     log (after_solve two_cycles_with_terminal) = log two_cycles_with_terminal ++ evs /\
     count_cycles evs = 2%nat).
Proof.
  assert (H1 : attrs two_cycles_with_terminal !! "cycles"%string = Some (PInt 2)) by reflexivity.
  assert (H2 : (0 < 2)%Z) by lia.
  assert (H3 : attrs two_cycles_with_terminal !! "pseudo_terminal"%string = Some (PBool false))
    by reflexivity.
  assert (H4 : timeRev two_cycles_with_terminal = Ok (tt, after_timeRev two_cycles_with_terminal))
    by (vm_compute; reflexivity).
  assert (H5 : period_count (after_timeRev two_cycles_with_terminal)
                 = Ok (3%nat, after_timeRev two_cycles_with_terminal))
    by (vm_compute; reflexivity).
  assert (H6 : solve two_cycles_with_terminal = Ok (tt, after_solve two_cycles_with_terminal))
    by (vm_compute; reflexivity).
  split; [repeat split; assumption|].
  exact (C1_finite_horizon_length two_cycles_with_terminal 2 (PBool false) tt
           (after_timeRev two_cycles_with_terminal) 3 tt (after_solve two_cycles_with_terminal)
           H1 H2 H3 H4 H5 H6).
Defined.

Lemma C2_witness :
  (attrs converging_infinite !! "cycles"%string = Some (PInt 0) /\
   attrs converging_infinite !! "time_flow"%string = Some (PBool false) /\
   timeRev converging_infinite = Ok (tt, after_timeRev converging_infinite) /\
   period_count (after_timeRev converging_infinite)
     = Ok (2%nat, after_timeRev converging_infinite) /\
   solve converging_infinite = Ok (tt, after_solve converging_infinite)) /\
  (exists sc evs, log (after_solve converging_infinite) = log converging_infinite ++ evs ++ [ECycle sc] /\
     length sc = 2%nat /\
     attrs (after_solve converging_infinite) !! "solution"%string = Some (PList sc)).
Proof.
  assert (H1 : attrs converging_infinite !! "cycles"%string = Some (PInt 0)) by reflexivity.
  assert (H2 : attrs converging_infinite !! "time_flow"%string = Some (PBool false))
    by reflexivity.
  assert (H3 : timeRev converging_infinite = Ok (tt, after_timeRev converging_infinite))
    by (vm_compute; reflexivity).
  assert (H4 : period_count (after_timeRev converging_infinite)
                 = Ok (2%nat, after_timeRev converging_infinite))
    by (vm_compute; reflexivity).
  assert (H5 : solve converging_infinite = Ok (tt, after_solve converging_infinite))
    by (vm_compute; reflexivity).
  split; [repeat split; assumption|].
  exact (C2_infinite_horizon_last_cycle converging_infinite (PBool false) tt
           (after_timeRev converging_infinite) 2 tt (after_solve converging_infinite)
           H1 H2 H3 H4 H5).
Defined.

Lemma C7_witness :
  (attrs converging_infinite !! "cycles"%string = Some (PInt 0) /\
   solveAgent converging_infinite = Ok (solveAgent_result converging_infinite)) /\
  (exists evs, log (solveAgent_result converging_infinite).2 = log converging_infinite ++ evs /\
     (2 <= count_cycles evs)%nat).
Proof.
  assert (H1 : attrs converging_infinite !! "cycles"%string = Some (PInt 0)) by reflexivity.
  assert (H2 : solveAgent converging_infinite
                 = Ok ((solveAgent_result converging_infinite).1,
                       (solveAgent_result converging_infinite).2))
    by (vm_compute; reflexivity).
  split; [split; [exact H1|exact H2]|].
  exact (C7_infinite_horizon_two_cycles converging_infinite
           (solveAgent_result converging_infinite).1 (solveAgent_result converging_infinite).2
           H1 H2).
Defined.

End Witness_horizon.

Section Witness_args.
Import Fixture.

Lemma C3_witness :
  (solveACycle (PInt 0) declared_subset
     = Ok ((cycle_result (PInt 0) declared_subset).1, (cycle_result (PInt 0) declared_subset).2) /\
   exists tv inv calls,
     get_names "time_vary" declared_subset = Ok (tv, declared_subset) /\
     get_names "time_inv" declared_subset = Ok (inv, declared_subset) /\
     log (cycle_result (PInt 0) declared_subset).2 = log declared_subset ++ calls /\
     length calls = length (cycle_result (PInt 0) declared_subset).1 /\
     forall t e, calls !! t = Some e ->
       exists f kw sp, e = ECall f kw /\ period_solver (attrs declared_subset) tv t = Some f /\
         next_solution_at (PInt 0) (cycle_result (PInt 0) declared_subset).1 t = Some sp /\
         Forall2 (fun n p => p.1 = n /\ expected_arg (attrs declared_subset) tv inv t sp n = Some p.2)
           (getArgNames f) kw) /\
  ((period_count beta_missing = Ok (2%nat, beta_missing) /\
    get_names "time_vary" beta_missing = Ok (["x"]%string, beta_missing) /\
    get_names "time_inv" beta_missing = Ok ([], beta_missing) /\ (0 < 2)%nat /\
    period_solver (attrs beta_missing) ["x"]%string 0 = Some FScaled /\
    In "beta"%string (getArgNames FScaled) /\ "beta"%string <> "solution_tp1"%string /\
    existsb (String.eqb "beta") ["x"]%string = false /\ existsb (String.eqb "beta") [] = false) /\
   exists e, solveACycle (PInt 0) beta_missing = Err e).
Proof.
  assert (E : solveACycle (PInt 0) declared_subset
     = Ok ((cycle_result (PInt 0) declared_subset).1, (cycle_result (PInt 0) declared_subset).2))
    by (vm_compute; reflexivity).
  assert (H1 : period_count beta_missing = Ok (2%nat, beta_missing)) by (vm_compute; reflexivity).
  assert (H2 : get_names "time_vary" beta_missing = Ok (["x"]%string, beta_missing))
    by (vm_compute; reflexivity).
  assert (H3 : get_names "time_inv" beta_missing = Ok ([], beta_missing))
    by (vm_compute; reflexivity).
  assert (H4 : (0 < 2)%nat) by lia.
  assert (H5 : period_solver (attrs beta_missing) ["x"]%string 0 = Some FScaled)
    by (vm_compute; reflexivity).
  assert (H6 : In "beta"%string (getArgNames FScaled)) by (left; reflexivity).
  assert (H7 : "beta"%string <> "solution_tp1"%string) by discriminate.
  assert (H8 : existsb (String.eqb "beta") ["x"]%string = false) by reflexivity.
  assert (H9 : existsb (String.eqb "beta") [] = false) by reflexivity.
  split.
  - split; [exact E|].
    exact (proj1 (C3_solver_gets_declared_args (PInt 0) declared_subset) _ _ E).
  - split; [repeat split; assumption|].
    exact (proj2 (C3_solver_gets_declared_args (PInt 0) beta_missing) 2%nat ["x"]%string [] 0%nat
             FScaled "beta" H1 H2 H3 H4 H5 H6 H7 H8 H9).
Defined.

End Witness_args.

Section Extra_flip.
Context {Obj Fn : Type} {RT : Runtime Obj Fn}.

(** [timeFwd()] is idempotent: once it has succeeded, calling it again
    changes nothing. *)
Theorem timeFwd_idempotent (w w1 : world Obj Fn) (u : unit) :
  timeFwd w = Ok (u, w1) -> timeFwd w1 = Ok (tt, w1).
Proof.
  intros H. apply timeFwd_forward in H as [_ (v & Hv & Tv)].
  unfold timeFwd, bind, get_attr. rewrite Hv, Tv. reflexivity.
Qed.

(** [timeRev()] is idempotent: once it has succeeded, calling it again
    changes nothing. *)
Theorem timeRev_idempotent (w w1 : world Obj Fn) (u : unit) :
  timeRev w = Ok (u, w1) -> timeRev w1 = Ok (tt, w1).
Proof.
  intros H. apply timeRev_facts in H as (_ & _ & _ & _ & _ & _ & v & Hv & Tv).
  unfold timeRev, bind, get_attr. rewrite Hv, Tv. reflexivity.
Qed.

(** After [timeFwd()], [timeReport()] prints the chronological-order line and
    returns a true [time_flow]; after [timeRev()] it prints the
    reverse-order line and returns a false one; it changes nothing. *)
Theorem timeReport_after_direction_change (w w1 w2 : world Obj Fn) (u1 u2 : unit) :
  (timeFwd w = Ok (u1, w1) ->
   exists v, truthy v = true /\
     timeReport w1 = Ok (("Time varying objects are listed in ordinary chronological order."%string, v), w1)) /\
  (timeRev w = Ok (u2, w2) ->
   exists v, truthy v = false /\
     timeReport w2 = Ok (("Time varying objects are listed in reverse chronological order."%string, v), w2)).
Proof.
  split; intros H.
  - apply timeFwd_forward in H as [_ (v & Hv & Tv)]. exists v. split; [done|].
    unfold timeReport, bind, get_attr, ret. rewrite Hv, Tv. reflexivity.
  - apply timeRev_facts in H as (_ & _ & _ & _ & _ & _ & v & Hv & Tv). exists v. split; [done|].
    unfold timeReport, bind, get_attr, ret. rewrite Hv, Tv. reflexivity.
Qed.

End Extra_flip.

Section Extra_solve.
Context {Obj Fn : Type} {RT : Runtime Obj Fn}.
Implicit Types (w : world Obj Fn).

Ltac bind_as H x w Hm := apply bind_inv in H; destruct H as (x & w & Hm & H); cbn beta in H.

Lemma solveAgent_steps w sol w' :
  solveAgent w = Ok (sol, w') ->
  exists tf0 ab C pt st res wl,
    attrs w !! "time_flow"%string = Some tf0 /\ timeRev w = Ok (tt, ab) /\
    attrs ab !! "cycles"%string = Some (PInt C) /\
    attrs ab !! "pseudo_terminal"%string = Some pt /\
    attrs ab !! "solution_terminal"%string = Some st /\
    cycle_loop (Z.to_nat C + Z.to_nat max_cycles + 1) (Z.eqb C 0) C 0 st
      (if truthy pt then [] else [st]) ab = Ok (res, wl) /\
    sol = (if Z.eqb C 0 then res.2 else res.1) /\
    (truthy tf0 = true -> timeFwd wl = Ok (tt, w')) /\ (truthy tf0 = false -> w' = wl).
Proof.
  unfold solveAgent. intros H.
  bind_as H tf0 w1 Hm. apply get_attr_inv in Hm as [-> Htf].
  bind_as H u ab Hrev. destruct u.
  bind_as H c w1 Hm. apply get_attr_inv in Hm as [-> Hc].
  bind_as H C w1 Hm. apply lift_inv in Hm as [-> Hi].
  destruct c; try discriminate. injection Hi as ->. cbv zeta in H.
  bind_as H pt w1 Hm. apply get_attr_inv in Hm as [-> Hpt].
  bind_as H init w1 Hm.
  assert (Hinit : w1 = ab /\ forall st, attrs ab !! "solution_terminal"%string = Some st ->
                    init = (if truthy pt then [] else [st])).
  { destruct (truthy pt); cbn [negb] in Hm.
    - apply ret_inv in Hm as [-> ->]. done.
    - bind_as Hm st0 w2 Hm0. apply get_attr_inv in Hm0 as [-> Hst].
      apply ret_inv in Hm as [-> ->]. split; [done|].
      intros st Hst'. rewrite Hst in Hst'. injection Hst' as ->. done. }
  destruct Hinit as [-> Hinit]. clear Hm.
  bind_as H st w1 Hm. apply get_attr_inv in Hm as [-> Hst].
  rewrite (Hinit st Hst) in H.
  bind_as H res wl Hloop.
  destruct res as [s1 s2]. cbv beta iota zeta in H.
  bind_as H u w2 Hfin. apply ret_inv in H as [-> ->].
  exists tf0, ab, C, pt, st, (s1, s2), wl.
  do 7 (split; [done|]).
  destruct (truthy tf0); cbv beta iota in Hfin.
  - destruct u. split; [done|]. discriminate.
  - apply ret_inv in Hfin as [Hw _]. split; [discriminate|intros _; exact Hw].
Qed.

Lemma solveAgent_restores w l (b : bool) sol w' :
  attrs w !! "time_vary"%string = Some (PList l) -> ~ In (PStr "time_vary"%string) l ->
  attrs w !! "time_flow"%string = Some (PBool b) ->
  solveAgent w = Ok (sol, w') -> attrs w' = attrs w.
Proof.
  intros Htv Hself Htf H.
  apply solveAgent_steps in H
    as (tf0 & ab & C & pt & st & res & wl & Htf0 & Hrev & _ & _ & _ & Hloop & _ & Hfwd & Hstay).
  rewrite Htf in Htf0. injection Htf0 as <-. cbn [truthy] in Hfwd, Hstay.
  pose proof (cycle_loop_attrs _ _ _ _ _ _ _ _ _ Hloop) as Hla.
  rewrite (timeRev_eq w b Htf) in Hrev. destruct b; cbv beta iota in Hrev.
  - destruct (timeFlip_twice l w ab tt true Htv Hself Htf Hrev) as [Hback Htf1].
    destruct (timeFlip_sound l w ab tt true Htv Hself Htf Hrev) as [_ Hab].
    assert (Htv1 : attrs ab !! "time_vary"%string = Some (PList l)).
    { rewrite Hab. cbn [attrs]. rewrite lookup_insert_ne by done.
      rewrite fold_rev_at_lookup, occurrences_absent by done. exact Htv. }
    destruct (timeFlip_sound l ab w tt false Htv1 Hself Htf1 Hback) as [_ Hw].
    specialize (Hfwd eq_refl).
    rewrite (timeFwd_eq wl false) in Hfwd by (rewrite Hla; exact Htf1).
    cbv beta iota in Hfwd. rewrite <- Hla in Htv1, Htf1.
    destruct (timeFlip_sound l wl w' tt false Htv1 Hself Htf1 Hfwd) as [_ Hw'].
    rewrite Hw', Hw. cbn [attrs]. rewrite Hla. done.
  - injection Hrev as <-. rewrite (Hstay eq_refl). exact Hla.
Qed.

Lemma cycle_loop_last T fuel cl cc sl acc w res w' :
  period_count w = Ok (T, w) -> cl <= 1 ->
  cycle_loop fuel false cl cc sl acc w = Ok (res, w') ->
  attrs w' = attrs w /\ length res.1 = (length acc + T)%nat /\
  exists evs, log w' = log w ++ evs /\ count_cycles evs = 1%nat.
Proof.
  intros HT Hcl H. destruct fuel as [|fuel]; cbn [cycle_loop] in H; [discriminate|].
  bind_step H. apply solveACycle_shape in Hm as (T' & calls & HT' & HA & Hlog & Hc & Hlen).
  rewrite HT in HT'. injection HT' as <-.
  bind_step H. unfold emit in Hm. injection Hm as _ Hw. rewrite <- Hw in H. clear Hw.
  bind_step H. apply lift_inv in Hm as [-> _].
  bind_step H. apply ret_inv in Hm as [-> ->].
  destruct (Z.gtb (cl - 1) 0) eqn:Hg; [apply Z.gtb_lt in Hg; lia|].
  cbn beta iota in H. 
  apply ret_inv in H as [-> ->]. cbn [attrs log fst].
  split; [done|]. split; [rewrite length_app; lia|].
  exists (calls ++ [ECycle x]). rewrite Hlog, <- app_assoc. split; [done|].
  rewrite count_cycles_app, Hc. done.
Qed.

(** [solveAgent()] leaves every attribute as it found it, when [time_flow]
    is a bool and [time_vary] a list that does not name itself: [timeRev()]
    and the final [timeFwd()] undo each other and the cycles only read the
    agent. *)
Theorem solveAgent_keeps_attributes w (l : list (pyval Obj Fn)) (b : bool) sol w' :
  attrs w !! "time_vary"%string = Some (PList l) -> ~ In (PStr "time_vary"%string) l ->
  attrs w !! "time_flow"%string = Some (PBool b) ->
  solveAgent w = Ok (sol, w') -> attrs w' = attrs w.
Proof. exact (solveAgent_restores w l b sol w'). Qed.

(** [solve()] changes exactly two attributes of such an agent: [solution]
    becomes the list returned by [solveAgent()], reversed when [time_flow]
    is true, and [time_vary] gets ["solution"] appended unless it already
    lists it. *)
Theorem solve_exact_effect w (l : list (pyval Obj Fn)) (b : bool) u w' :
  attrs w !! "time_vary"%string = Some (PList l) -> ~ In (PStr "time_vary"%string) l ->
  attrs w !! "time_flow"%string = Some (PBool b) ->
  solve w = Ok (u, w') ->
  exists sol w1, solveAgent w = Ok (sol, w1) /\ log w' = log w1 /\
    attrs w' = <["time_vary"%string := PList (if existsb is_solution_str l then l
                                              else l ++ [PStr "solution"%string])]>
                 (<["solution"%string := PList (if b then rev sol else sol)]> (attrs w)).
Proof.
  intros Htv Hself Htf H. unfold solve in H.
  bind_as H sol w1 Hsa. pose proof (solveAgent_restores w l b sol w1 Htv Hself Htf Hsa) as Hr.
  exists sol, w1. split; [done|].
  bind_as H u1 w2 Hset. unfold set_attr in Hset. injection Hset as _ <-.
  bind_as H tf w2 Hm. apply get_attr_inv in Hm as [-> Htf2].
  cbn [attrs] in Htf2. rewrite lookup_insert_ne, Hr, Htf in Htf2 by done. injection Htf2 as <-.
  bind_as H u2 w2 Hrev.
  assert (Hs : log w2 = log w1 /\
               attrs w2 = <["solution"%string := PList (if b then rev sol else sol)]> (attrs w)).
  { destruct b; cbn [truthy] in Hrev; cbv beta iota in Hrev.
    - unfold reverse_list_attr in Hrev. bind_as Hrev v w3 Hm.
      apply get_attr_inv in Hm as [-> Hv]. cbn [attrs] in Hv. rewrite lookup_insert_eq in Hv.
      injection Hv as <-. unfold set_attr in Hrev. injection Hrev as _ <-. cbn [attrs log].
      rewrite insert_insert_eq, Hr. done.
    - apply ret_inv in Hrev as [-> _]. cbn [attrs log]. rewrite Hr. done. }
  destruct Hs as [Hl Hs]. clear Hrev.
  bind_as H tv w3 Hm. apply get_attr_inv in Hm as [-> Htv3].
  rewrite Hs, lookup_insert_ne, Htv in Htv3 by done. injection Htv3 as <-.
  destruct (existsb is_solution_str l).
  - apply ret_inv in H as [-> _]. split; [done|]. rewrite Hs. symmetry. apply insert_id.
    rewrite lookup_insert_ne by done. exact Htv.
  - unfold set_attr in H. injection H as _ <-. cbn [attrs log]. rewrite Hs. done.
Qed.

(** With a negative [cycles], [solve()] runs exactly one cycle, like
    [cycles = 1]: the stored solution has [T] entries, plus the terminal one
    when [pseudo_terminal] is false. *)
Theorem solve_negative_cycles_one_cycle w (C : Z) (pt : pyval Obj Fn) (u : unit)
    (ab : world Obj Fn) (T : nat) (u' : unit) w' :
  attrs w !! "cycles"%string = Some (PInt C) -> C < 0 ->
  attrs w !! "pseudo_terminal"%string = Some pt ->
  timeRev w = Ok (u, ab) -> period_count ab = Ok (T, ab) ->
  solve w = Ok (u', w') ->
  exists l evs, attrs w' !! "solution"%string = Some (PList l) /\
    length l = (T + (if truthy pt then 0 else 1))%nat /\
    log w' = log w ++ evs /\ count_cycles evs = 1%nat.
Proof.
  intros Hc HC Hpt Hrev HT Hsolve.
  apply solve_inv in Hsolve as (sol & w1 & tf & Hsa & Hlog & _ & Hsol).
  apply solveAgent_inv in Hsa
    as (tf0 & ab' & C' & pt' & st & res & wl & _ & Hrev' & Hc' & Hpt' & Hloop & -> & Hlog' & _).
  rewrite Hrev in Hrev'. injection Hrev' as _ <-.
  apply timeRev_facts in Hrev as (Hlr & Hkeep & Htruth & _).
  rewrite Hkeep, Hc in Hc' by (done || (rewrite Hc; exact I)). injection Hc' as <-.
  pose proof (Htruth "pseudo_terminal"%string ltac:(done)) as Hp.
  rewrite Hpt, Hpt' in Hp. injection Hp as Hp.
  assert (Hc0 : Z.eqb C 0 = false) by (apply Z.eqb_neq; lia).
  rewrite Hc0 in Hloop, Hsol.
  apply (cycle_loop_last T) in Hloop as (Hla & Hlen & evs & Hlogl & Hcount); [|done|lia].
  exists (if truthy tf then rev res.1 else res.1), evs. split; [done|]. split.
  - destruct (truthy tf); rewrite ?length_rev, Hlen, Hp;
      destruct (truthy pt); cbn [length]; lia.
  - split; [congruence|]. exact Hcount.
Qed.

End Extra_solve.

Section Extra_cycles.
Context {Obj Fn : Type} {RT : Runtime Obj Fn}.
Implicit Types (w : world Obj Fn).

Ltac bind_as H x w Hm := apply bind_inv in H; destruct H as (x & w & Hm & H); cbn beta in H.

Lemma cycle_loop_no_periods fuel ih cl cc sl acc w r :
  period_count w = Ok (0%nat, w) -> cycle_loop fuel ih cl cc sl acc w <> Ok r.
Proof.
  intros HT H. destruct r as [res w']. destruct fuel as [|fuel]; cbn [cycle_loop] in H; [discriminate|].
  bind_as H scy w1 Hm. apply solveACycle_shape in Hm as (T & calls & HT' & _ & _ & _ & Hlen).
  rewrite HT in HT'. injection HT' as <-. destruct scy; [|discriminate].
  bind_as H u w2 Hm. bind_as H snow w3 Hm2. apply lift_inv in Hm2 as [_ Hl]. discriminate.
Qed.

Lemma cycle_loop_prefix fuel cl cc sl acc w res w' :
  cycle_loop fuel false cl cc sl acc w = Ok (res, w') -> exists rest, res.1 = acc ++ rest.
Proof.
  revert cl cc sl acc w. induction fuel as [|fuel IH]; intros cl cc sl acc w H;
    cbn [cycle_loop] in H; [discriminate|].
  bind_as H scy w1 Hm. bind_as H u w2 Hm2. bind_as H snow w3 Hm3. bind_as H go w4 Hm4.
  apply ret_inv in Hm4 as [-> ->]. cbn beta iota zeta in H.
  destruct (Z.gtb (cl - 1) 0).
  - apply IH in H as (rest & ->). exists (scy ++ rest). rewrite app_assoc. done.
  - apply ret_inv in H as [_ ->]. exists scy. done.
Qed.

(** If an agent has no period once time is reversed ([T = 0]),
    [solveAgent()] raises: the first cycle is empty and
    [solution_cycle[-1]] is out of range. *)
Theorem solveAgent_no_periods_raises w (u : unit) (ab : world Obj Fn) :
  timeRev w = Ok (u, ab) -> period_count ab = Ok (0%nat, ab) ->
  exists e, solveAgent w = Err e.
Proof.
  intros Hrev HT. destruct (solveAgent w) as [[sol w']|e] eqn:E; [exfalso|eauto].
  apply solveAgent_inv in E
    as (tf0 & ab' & C & pt & st & res & wl & _ & Hrev' & _ & _ & Hloop & _).
  rewrite Hrev in Hrev'. injection Hrev' as _ <-.
  exact (cycle_loop_no_periods _ _ _ _ _ _ _ _ HT Hloop).
Qed.

(** A cycle raises when the solver of some period [t < T] declares a
    time-varying parameter whose list has no element [t]. *)
Theorem solveACycle_short_time_varying_raises (sl : pyval Obj Fn) w (T : nat) (tv : list string)
    (t : nat) (f : Fn) (n : string) (l : list (pyval Obj Fn)) :
  period_count w = Ok (T, w) -> get_names "time_vary" w = Ok (tv, w) -> (t < T)%nat ->
  period_solver (attrs w) tv t = Some f -> In n (getArgNames f) ->
  n <> "solution_tp1"%string -> existsb (String.eqb n) tv = true ->
  attrs w !! n = Some (PList l) -> (length l <= t)%nat ->
  exists e, solveACycle sl w = Err e.
Proof.
  intros HT Htv Ht Hf Hn Hn1 Hn2 Hv Hl.
  destruct (solveACycle sl w) as [[sols w']|e] eqn:E; [exfalso|eauto].
  apply solveACycle_sound in E
    as (T' & tv' & inv' & calls & HT' & Htv' & _ & _ & _ & _ & Hlc & Hc).
  rewrite HT in HT'. rewrite Htv in Htv'. injection HT' as <-. injection Htv' as <-.
  destruct (lookup_lt_is_Some_2 calls t) as [e He]; [lia|].
  destruct (Hc t e He) as (f' & kw & sp & -> & Hf' & _ & Hargs).
  rewrite Hf in Hf'. injection Hf' as <-.
  destruct (Forall2_in_left _ _ _ _ Hargs Hn) as (p & _ & Hp).
  unfold expected_arg in Hp. apply String.eqb_neq in Hn1. rewrite Hn1, Hn2, Hv in Hp.
  cbn [py_index] in Hp. rewrite (proj2 (nth_error_None l t) Hl) in Hp. discriminate.
Qed.

(** With a finite horizon ([cycles] not 0) and a false [pseudo_terminal],
    the list [solveAgent()] returns starts with [solution_terminal] (when
    that attribute is not a list, so that [timeRev()] leaves it alone). *)
Theorem solveAgent_finite_starts_with_terminal w (C : Z) (pt st : pyval Obj Fn) sol w' :
  attrs w !! "cycles"%string = Some (PInt C) -> C <> 0 ->
  attrs w !! "pseudo_terminal"%string = Some pt -> truthy pt = false ->
  attrs w !! "solution_terminal"%string = Some st -> not_list (Some st) ->
  solveAgent w = Ok (sol, w') -> head sol = Some st.
Proof.
  intros Hc HC Hpt Tpt Hst Hnl H.
  apply solveAgent_steps in H
    as (tf0 & ab & C' & pt' & st' & res & wl & _ & Hrev & Hc' & Hpt' & Hst' & Hloop & -> & _).
  apply timeRev_facts in Hrev as (_ & Hkeep & Htruth & _).
  rewrite Hkeep, Hc in Hc' by (done || (rewrite Hc; exact I)). injection Hc' as <-.
  rewrite Hkeep, Hst in Hst' by (done || (rewrite Hst; exact Hnl)). injection Hst' as <-.
  pose proof (Htruth "pseudo_terminal"%string ltac:(done)) as Hp.
  rewrite Hpt, Hpt' in Hp. injection Hp as Hp. rewrite Hp, Tpt in Hloop.
  assert (Hc0 : Z.eqb C 0 = false) by (apply Z.eqb_neq; lia). rewrite Hc0 in Hloop |- *.
  apply cycle_loop_prefix in Hloop as (rest & Hr). rewrite Hr. reflexivity.
Qed.

End Extra_cycles.

Section Extra_smm.
Context {Obj Fn : Type} {RT : Runtime Obj Fn}.

Ltac bind_as H x w Hm := apply bind_inv in H; destruct H as (x & w & Hm & H); cbn beta in H.

(** When the parameters are within their bounds and the agent's
    [time_flow] was false on entry, [smmObjectiveFxn] hands the agent back
    with a false [time_flow], whatever the simulation did to it. *)
Theorem smmObjectiveFxn_in_bounds_restores_backward (tdf : list Q) (sim : M Obj Fn Q)
    (beth rho : Q) (bb rb : Q * Q) (w : world Obj Fn) (v0 : pyval Obj Fn) (q : Q) (w' : world Obj Fn) :
  attrs w !! "time_flow"%string = Some v0 -> truthy v0 = false ->
  (qlt beth bb.1 || qlt bb.2 beth || qlt rho rb.1 || qlt rb.2 rho) = false ->
  smmObjectiveFxn tdf sim beth rho bb rb w = Ok (q, w') ->
  exists v, attrs w' !! "time_flow"%string = Some v /\ truthy v = false.
Proof.
  intros Htf Tv Hin H. unfold smmObjectiveFxn in H.
  bind_as H tf w1 Hm. apply get_attr_inv in Hm as [-> Htf1].
  rewrite Htf in Htf1. injection Htf1 as <-.
  bind_as H u w1 Hfwd. rewrite Hin in H. cbv beta iota in H.
  bind_as H u1 w2 Ha. bind_as H u2 w3 Hs. bind_as H d w4 Hsim. bind_as H u3 w5 Hrev.
  apply ret_inv in H as [-> _]. rewrite Tv in Hrev. cbv beta iota delta [negb] in Hrev.
  apply timeRev_facts in Hrev as (_ & _ & _ & _ & _ & _ & v & Hv & Tv'). eauto.
Qed.

End Extra_smm.

Section Witness_extra.
Import Fixture.

Ltac not_in := let H := fresh in intros H; repeat (destruct H as [H|H]; [discriminate H|]); exact H.

Lemma timeFwd_idempotent_witness :
  timeFwd two_period_backward = Ok (tt, flipped two_period_backward) /\
  timeFwd (flipped two_period_backward) = Ok (tt, flipped two_period_backward).
Proof.
  assert (H : timeFwd two_period_backward = Ok (tt, flipped two_period_backward))
    by (vm_compute; reflexivity).
  split; [exact H|].
  exact (timeFwd_idempotent two_period_backward (flipped two_period_backward) tt H).
Defined.

Lemma timeRev_idempotent_witness :
  timeRev (three_periods true) = Ok (tt, after_timeRev (three_periods true)) /\
  timeRev (after_timeRev (three_periods true)) = Ok (tt, after_timeRev (three_periods true)).
Proof.
  assert (H : timeRev (three_periods true) = Ok (tt, after_timeRev (three_periods true)))
    by (vm_compute; reflexivity).
  split; [exact H|].
  exact (timeRev_idempotent (three_periods true) (after_timeRev (three_periods true)) tt H).
Defined.

Lemma solveAgent_keeps_attributes_witness :
  (attrs two_cycles_with_terminal !! "time_vary"%string = Some (PList (map (@PStr unit fn) ["x"]%string)) /\
   ~ In (PStr "time_vary"%string) (map (@PStr unit fn) ["x"]%string) /\
   attrs two_cycles_with_terminal !! "time_flow"%string = Some (PBool true) /\
   solveAgent two_cycles_with_terminal
     = Ok ((solveAgent_result two_cycles_with_terminal).1,
           (solveAgent_result two_cycles_with_terminal).2)) /\
  attrs (solveAgent_result two_cycles_with_terminal).2 = attrs two_cycles_with_terminal.
Proof.
  assert (H1 : attrs two_cycles_with_terminal !! "time_vary"%string
                 = Some (PList (map (@PStr unit fn) ["x"]%string))) by reflexivity.
  assert (H2 : ~ In (PStr "time_vary"%string) (map (@PStr unit fn) ["x"]%string)) by (simpl; not_in).
  assert (H3 : attrs two_cycles_with_terminal !! "time_flow"%string = Some (PBool true))
    by reflexivity.
  assert (H4 : solveAgent two_cycles_with_terminal
                 = Ok ((solveAgent_result two_cycles_with_terminal).1,
                       (solveAgent_result two_cycles_with_terminal).2))
    by (vm_compute; reflexivity).
  split; [repeat split; assumption|].
  exact (solveAgent_keeps_attributes two_cycles_with_terminal (map (@PStr unit fn) ["x"]%string) true
           (solveAgent_result two_cycles_with_terminal).1
           (solveAgent_result two_cycles_with_terminal).2 H1 H2 H3 H4).
Defined.

Lemma solve_exact_effect_witness :
  (attrs two_cycles_with_terminal !! "time_vary"%string = Some (PList (map (@PStr unit fn) ["x"]%string)) /\
   ~ In (PStr "time_vary"%string) (map (@PStr unit fn) ["x"]%string) /\
   attrs two_cycles_with_terminal !! "time_flow"%string = Some (PBool true) /\
   solve two_cycles_with_terminal = Ok (tt, after_solve two_cycles_with_terminal)) /\
  (exists sol w1, solveAgent two_cycles_with_terminal = Ok (sol, w1) /\
     log (after_solve two_cycles_with_terminal) = log w1 /\
     attrs (after_solve two_cycles_with_terminal) =
       <["time_vary"%string := PList (if existsb is_solution_str (map (@PStr unit fn) ["x"]%string)
                                      then map (@PStr unit fn) ["x"]%string
                                      else map (@PStr unit fn) ["x"]%string ++ [PStr "solution"%string])]>
         (<["solution"%string := PList (if true then rev sol else sol)]>
            (attrs two_cycles_with_terminal))).
Proof.
  assert (H1 : attrs two_cycles_with_terminal !! "time_vary"%string
                 = Some (PList (map (@PStr unit fn) ["x"]%string))) by reflexivity.
  assert (H2 : ~ In (PStr "time_vary"%string) (map (@PStr unit fn) ["x"]%string)) by (simpl; not_in).
  assert (H3 : attrs two_cycles_with_terminal !! "time_flow"%string = Some (PBool true))
    by reflexivity.
  assert (H4 : solve two_cycles_with_terminal = Ok (tt, after_solve two_cycles_with_terminal))
    by (vm_compute; reflexivity).
  split; [repeat split; assumption|].
  exact (solve_exact_effect two_cycles_with_terminal (map (@PStr unit fn) ["x"]%string) true tt
           (after_solve two_cycles_with_terminal) H1 H2 H3 H4).
Defined.

Lemma solve_negative_cycles_one_cycle_witness :
  (attrs negative_cycles !! "cycles"%string = Some (PInt (-3)) /\ (-3 < 0)%Z /\
   attrs negative_cycles !! "pseudo_terminal"%string = Some (PBool false) /\
   timeRev negative_cycles = Ok (tt, after_timeRev negative_cycles) /\
   period_count (after_timeRev negative_cycles) = Ok (2%nat, after_timeRev negative_cycles) /\
   solve negative_cycles = Ok (tt, after_solve negative_cycles)) /\
  (exists l evs, attrs (after_solve negative_cycles) !! "solution"%string = Some (PList l) /\
     length l = (2 + (if truthy (PBool false : pyval unit fn) then 0 else 1))%nat /\
     log (after_solve negative_cycles) = log negative_cycles ++ evs /\
     count_cycles evs = 1%nat).
Proof.
  assert (H1 : attrs negative_cycles !! "cycles"%string = Some (PInt (-3))) by reflexivity.
  assert (H2 : (-3 < 0)%Z) by lia.
  assert (H3 : attrs negative_cycles !! "pseudo_terminal"%string = Some (PBool false))
    by reflexivity.
  assert (H4 : timeRev negative_cycles = Ok (tt, after_timeRev negative_cycles))
    by (vm_compute; reflexivity).
  assert (H5 : period_count (after_timeRev negative_cycles)
                 = Ok (2%nat, after_timeRev negative_cycles)) by (vm_compute; reflexivity).
  assert (H6 : solve negative_cycles = Ok (tt, after_solve negative_cycles))
    by (vm_compute; reflexivity).
  split; [repeat split; assumption|].
  exact (solve_negative_cycles_one_cycle negative_cycles (-3) (PBool false) tt
           (after_timeRev negative_cycles) 2 tt (after_solve negative_cycles) H1 H2 H3 H4 H5 H6).
Defined.

Lemma solveAgent_no_periods_raises_witness :
  (timeRev no_periods = Ok (tt, after_timeRev no_periods) /\
   period_count (after_timeRev no_periods) = Ok (0%nat, after_timeRev no_periods)) /\
  (exists e, solveAgent no_periods = Err e).
Proof.
  assert (H1 : timeRev no_periods = Ok (tt, after_timeRev no_periods))
    by (vm_compute; reflexivity).
  assert (H2 : period_count (after_timeRev no_periods) = Ok (0%nat, after_timeRev no_periods))
    by (vm_compute; reflexivity).
  split; [split; assumption|].
  exact (solveAgent_no_periods_raises no_periods tt (after_timeRev no_periods) H1 H2).
Defined.

Lemma solveACycle_short_time_varying_raises_witness :
  (period_count short_beta = Ok (3%nat, short_beta) /\
   get_names "time_vary" short_beta = Ok (["x"; "beta"]%string, short_beta) /\
   (2 < 3)%nat /\ period_solver (attrs short_beta) ["x"; "beta"]%string 2 = Some FScaled /\
   In "beta"%string (getArgNames FScaled) /\ "beta"%string <> "solution_tp1"%string /\
   existsb (String.eqb "beta") ["x"; "beta"]%string = true /\
   attrs short_beta !! "beta"%string = Some (PList (map (@PInt unit fn) [2; 3]%Z)) /\
   (length (map (@PInt unit fn) [2; 3]%Z) <= 2)%nat) /\
  (exists e, solveACycle (PInt 0) short_beta = Err e).
Proof.
  assert (H1 : period_count short_beta = Ok (3%nat, short_beta)) by (vm_compute; reflexivity).
  assert (H2 : get_names "time_vary" short_beta = Ok (["x"; "beta"]%string, short_beta))
    by (vm_compute; reflexivity).
  assert (H3 : (2 < 3)%nat) by lia.
  assert (H4 : period_solver (attrs short_beta) ["x"; "beta"]%string 2 = Some FScaled)
    by (vm_compute; reflexivity).
  assert (H5 : In "beta"%string (getArgNames FScaled)) by (simpl; left; reflexivity).
  assert (H6 : "beta"%string <> "solution_tp1"%string) by discriminate.
  assert (H7 : existsb (String.eqb "beta") ["x"; "beta"]%string = true) by reflexivity.
  assert (H8 : attrs short_beta !! "beta"%string = Some (PList (map (@PInt unit fn) [2; 3]%Z)))
    by reflexivity.
  assert (H9 : (length (map (@PInt unit fn) [2; 3]%Z) <= 2)%nat) by (simpl; lia).
  split; [repeat split; assumption|].
  exact (solveACycle_short_time_varying_raises (PInt 0) short_beta 3 ["x"; "beta"]%string 2
           FScaled "beta" (map (@PInt unit fn) [2; 3]%Z) H1 H2 H3 H4 H5 H6 H7 H8 H9).
Defined.

Lemma solveAgent_finite_starts_with_terminal_witness :
  (attrs two_cycles_with_terminal !! "cycles"%string = Some (PInt 2) /\ 2 <> 0 /\
   attrs two_cycles_with_terminal !! "pseudo_terminal"%string = Some (PBool false) /\
   truthy (PBool false : pyval unit fn) = false /\
   attrs two_cycles_with_terminal !! "solution_terminal"%string = Some (PInt 0) /\
   not_list (Some (PInt 0 : pyval unit fn)) /\
   solveAgent two_cycles_with_terminal
     = Ok ((solveAgent_result two_cycles_with_terminal).1,
           (solveAgent_result two_cycles_with_terminal).2)) /\
  head (solveAgent_result two_cycles_with_terminal).1 = Some (PInt 0).
Proof.
  assert (H1 : attrs two_cycles_with_terminal !! "cycles"%string = Some (PInt 2)) by reflexivity.
  assert (H2 : 2 <> 0) by lia.
  assert (H3 : attrs two_cycles_with_terminal !! "pseudo_terminal"%string = Some (PBool false))
    by reflexivity.
  assert (H4 : truthy (PBool false : pyval unit fn) = false) by reflexivity.
  assert (H5 : attrs two_cycles_with_terminal !! "solution_terminal"%string = Some (PInt 0))
    by reflexivity.
  assert (H6 : not_list (Some (PInt 0 : pyval unit fn))) by exact I.
  assert (H7 : solveAgent two_cycles_with_terminal
                 = Ok ((solveAgent_result two_cycles_with_terminal).1,
                       (solveAgent_result two_cycles_with_terminal).2))
    by (vm_compute; reflexivity).
  split; [repeat split; assumption|].
  exact (solveAgent_finite_starts_with_terminal two_cycles_with_terminal 2 (PBool false) (PInt 0)
           (solveAgent_result two_cycles_with_terminal).1
           (solveAgent_result two_cycles_with_terminal).2 H1 H2 H3 H4 H5 H6 H7).
Defined.

End Witness_extra.

Section Witness_extra_smm.
Import Fixture.
Local Open Scope Q_scope.

Lemma smmObjectiveFxn_in_bounds_restores_backward_witness :
  (attrs (three_periods false) !! "time_flow"%string = Some (PBool false) /\
   truthy (PBool false : pyval unit fn) = false /\
   (qlt 1 (0, 2).1 || qlt (0, 2).2 1 || qlt 3 (1, 5).1 || qlt (1, 5).2 3) = false /\
   smmObjectiveFxn [1; 1] (ret 0) 1 3 (0, 2) (1, 5) (three_periods false)
     = Ok (0, after_smm 1 3 (0, 2) (1, 5) (three_periods false))) /\
  (exists v, attrs (after_smm 1 3 (0, 2) (1, 5) (three_periods false)) !! "time_flow"%string
               = Some v /\ truthy v = false).
Proof.
  assert (H1 : attrs (three_periods false) !! "time_flow"%string = Some (PBool false))
    by reflexivity.
  assert (H2 : truthy (PBool false : pyval unit fn) = false) by reflexivity.
  assert (H3 : (qlt 1 (0, 2).1 || qlt (0, 2).2 1 || qlt 3 (1, 5).1 || qlt (1, 5).2 3) = false)
    by (vm_compute; reflexivity).
  assert (H4 : smmObjectiveFxn [1; 1] (ret 0) 1 3 (0, 2) (1, 5) (three_periods false)
                 = Ok (0, after_smm 1 3 (0, 2) (1, 5) (three_periods false)))
    by (vm_compute; reflexivity).
  split; [repeat split; assumption|].
  exact (smmObjectiveFxn_in_bounds_restores_backward [1; 1] (ret 0) 1 3 (0, 2) (1, 5)
           (three_periods false) (PBool false) 0 (after_smm 1 3 (0, 2) (1, 5) (three_periods false))
           H1 H2 H3 H4).
Defined.

End Witness_extra_smm.

Section Claim_cycle_ceiling.
Import Fixture.

(** C4 (code_bug, evaluation at the failing input): on an infinite-horizon
    agent whose successive cycle solutions are never "the same",
    [solveAgent] runs 5001 cycles, one more than [max_cycles], and returns
    the last cycle's solutions without an error. *)
Theorem C4_never_converging_runs_5001_cycles :
  match run solveAgent never_converges with
  | Ok (sol, w) => sol = [PInt 5001] /\ count_cycles (log w) = 5001%nat
  | Err _ => False
  end.
Proof. vm_compute. split; reflexivity. Qed.

End Claim_cycle_ceiling.
